(** * SAP AI Enterprise Architect: the analysis pipeline of [app.py]

    A shallow embedding of the pure core of [app.py]: [extract],
    [build_dot], [make_fmea] and [mitigation_narrative], together with the
    process-wide registries they read.

    Modelling conventions.
    - A Python [str] is a [string]; its characters are 8-bit codes and the
      text is read as ASCII: [lower] maps [A-Z] to [a-z], the regular
      expression classes [\d] and [\w] are the ASCII ones.  This is what
      Python does on ASCII text ([is_ascii_text]).  On other text
      [str.lower], the classes of [re] and [int] also know the letters and
      digits outside ASCII, which the model does not hold: a statement that
      goes through them is stated for ASCII text, for every lowercased
      text ([profile_of]), or for every alphabet with its digit and word
      classes ([Uni]).
    - An absent text ([None]) is [None : option string]; the expression
      [text or <empty string>] is [text_or_empty].
    - A Python [int] is a [Z].
    - A [dict] used as an ordered registry is an association list in
      declaration order; the [set] of module tags is a duplicate-free list
      ([set_add]); [sorted] is a stable insertion sort on the code-point
      order of strings.
    - The analysis [dict] returned by [extract] is the record [analysis]. *)

From Stdlib Require Import Bool List ZArith NArith Lia Ascii String.
From Stdlib Require Import Permutation Sorted OrdersEx.
From Stdlib Require DecimalString DecimalPos.
Import ListNotations.

Local Open Scope string_scope.
Local Open Scope list_scope.

(* ------------------------------------------------------------------ *)
(** ** Characters and strings *)

Definition code (c : ascii) : N := N_of_ascii c.

Definition in_range (lo hi : N) (c : ascii) : bool :=
  (lo <=? code c)%N && (code c <=? hi)%N.

Definition is_upper (c : ascii) : bool := in_range 65 90 c.
Definition is_lower (c : ascii) : bool := in_range 97 122 c.

(** [\d] among the ASCII characters: [0-9]. *)
Definition is_digit (c : ascii) : bool := in_range 48 57 c.

(** [\w] among the ASCII characters: letters, digits and the underscore. *)
Definition is_word (c : ascii) : bool :=
  is_digit c || is_upper c || is_lower c || (code c =? 95)%N.

(** The texts on which the model is the code: every character is ASCII. *)
Definition is_ascii_char (c : ascii) : bool := (code c <? 128)%N.

Fixpoint is_ascii_text (s : string) : bool :=
  match s with
  | EmptyString => true
  | String c s' => is_ascii_char c && is_ascii_text s'
  end.

Definition lower_char (c : ascii) : ascii :=
  if is_upper c then ascii_of_N (code c + 32) else c.

(** [str.lower()] on ASCII text: [A-Z] to [a-z], the rest unchanged. *)
Fixpoint lower (s : string) : string :=
  match s with
  | EmptyString => EmptyString
  | String c s' => String (lower_char c) (lower s')
  end.

Definition upper_char (c : ascii) : ascii :=
  if is_lower c then ascii_of_N (code c - 32) else c.

(** [str.upper()] *)
Fixpoint upper (s : string) : string :=
  match s with
  | EmptyString => EmptyString
  | String c s' => String (upper_char c) (upper s')
  end.

(** [kw in t] on strings: [kw] occurs in [t] as a contiguous substring. *)
Fixpoint contains (kw t : string) : bool :=
  prefix kw t ||
  match t with
  | EmptyString => false
  | String _ t' => contains kw t'
  end.

(** [any(kw in t for kw in kws)] *)
Definition any_in (kws : list string) (t : string) : bool :=
  existsb (fun kw => contains kw t) kws.

(** [x in xs] on a list or tuple of strings. *)
Definition mem (x : string) (xs : list string) : bool :=
  existsb (String.eqb x) xs.

(** [sep.join(ls)] *)
Definition join (sep : string) (ls : list string) : string :=
  String.concat sep ls.

(** The substring relation, stated independently of [contains]. *)
Definition occurs_in (kw t : string) : Prop :=
  exists pre post : string, t = (pre ++ kw ++ post)%string.

(* ------------------------------------------------------------------ *)
(** ** Sets of strings and [sorted] *)

(** [set.add] on a duplicate-free list. *)
Fixpoint set_add (x : string) (s : list string) : list string :=
  match s with
  | [] => [x]
  | y :: s' => if String.eqb x y then s else y :: set_add x s'
  end.

(** [set.update(xs)] *)
Definition set_update (xs : list string) (s : list string) : list string :=
  fold_left (fun acc x => set_add x acc) xs s.

(** [{x for x in xs}] *)
Definition set_of_list (xs : list string) : list string :=
  set_update xs [].

Fixpoint insert_sorted (x : string) (l : list string) : list string :=
  match l with
  | [] => [x]
  | y :: l' => if String.leb x y then x :: l else y :: insert_sorted x l'
  end.

(** [sorted(xs)] on strings *)
Definition sorted (l : list string) : list string :=
  fold_right insert_sorted [] l.

(* ------------------------------------------------------------------ *)
(** ** The regular expression [\b(\d{3,6})\b] and [int] *)

Module Re.

Definition opt_word (c : option ascii) : bool :=
  match c with
  | Some c => is_word c
  | None => false
  end.

(** [\b] between the character before and the character after a
    position; a missing side counts as a non-word character. *)
Definition boundary (before after : option ascii) : bool :=
  xorb (opt_word before) (opt_word after).

Definition head (s : string) : option ascii :=
  match s with
  | EmptyString => None
  | String c _ => Some c
  end.

Fixpoint last (s : string) (d : option ascii) : option ascii :=
  match s with
  | EmptyString => d
  | String c s' => last s' (Some c)
  end.

(** Exactly [k] digits at the front of [s], with the rest. *)
Fixpoint take_digits (k : nat) (s : string) : option (string * string) :=
  match k with
  | O => Some (EmptyString, s)
  | S k' =>
      match s with
      | EmptyString => None
      | String c s' =>
          if is_digit c then
            match take_digits k' s' with
            | Some (d, rest) => Some (String c d, rest)
            | None => None
            end
          else None
      end
  end.

(** [(\d{k})\b] at the front of [s]. *)
Definition group_then_boundary (k : nat) (s : string) : option string :=
  match take_digits k s with
  | Some (d, rest) =>
      if boundary (last d None) (head rest) then Some d else None
  | None => None
  end.

Definition or_else {A} (x y : option A) : option A :=
  match x with
  | Some _ => x
  | None => y
  end.

(** The whole pattern at one position: [\b], then the greedy quantifier
    [{3,6}] tried from 6 digits down to 3, then [\b]. *)
Definition match_here (before : option ascii) (s : string) : option string :=
  if boundary before (head s) then
    or_else (group_then_boundary 6 s)
      (or_else (group_then_boundary 5 s)
         (or_else (group_then_boundary 4 s)
            (group_then_boundary 3 s)))
  else None.

(** Left-to-right scan for non-overlapping matches.  [skip] counts the
    characters still covered by the previous match. *)
Fixpoint findall_from (before : option ascii) (skip : nat) (s : string)
  : list string :=
  match s with
  | EmptyString => []
  | String c s' =>
      match skip with
      | S k => findall_from (Some c) k s'
      | O =>
          match match_here before s with
          | Some d => d :: findall_from (Some c) (String.length d - 1) s'
          | None => findall_from (Some c) 0 s'
          end
      end
  end.

(** [re.findall(r"\b(\d{3,6})\b", t)] *)
Definition findall (t : string) : list string :=
  findall_from None 0 t.

End Re.

Definition digit_value (c : ascii) : Z := Z.of_N (code c) - 48.

(** [int(s)] on a string of decimal digits, most significant first.  It is
    only applied to captures of the pattern, which are non-empty strings of
    digits ([findall_from_digits] below). *)
Fixpoint int_from (acc : Z) (s : string) : Z :=
  match s with
  | EmptyString => acc
  | String c s' => int_from (acc * 10 + digit_value c)%Z s'
  end.

Definition int (s : string) : Z := int_from 0 s.

(* ------------------------------------------------------------------ *)
(** ** The pattern and [int] over any alphabet

    [re.findall] and [int] read a text character by character through a
    digit class, a word class and a digit value.  For Python the characters
    are the code points and the classes are those of the Unicode database;
    [Re] and [int] above are the instance for ASCII characters.  The
    definitions below take the alphabet and its classes as parameters. *)

Module Uni.

Section Pattern.

Context {char : Type}.
Variable is_digit : char -> bool.
Variable is_word : char -> bool.
Variable digit_value : char -> Z.

Definition opt_word (c : option char) : bool :=
  match c with
  | Some c => is_word c
  | None => false
  end.

Definition boundary (before after : option char) : bool :=
  xorb (opt_word before) (opt_word after).

Definition head (s : list char) : option char :=
  match s with
  | [] => None
  | c :: _ => Some c
  end.

Fixpoint last (s : list char) (d : option char) : option char :=
  match s with
  | [] => d
  | c :: s' => last s' (Some c)
  end.

Fixpoint take_digits (k : nat) (s : list char)
  : option (list char * list char) :=
  match k with
  | O => Some ([], s)
  | S k' =>
      match s with
      | [] => None
      | c :: s' =>
          if is_digit c then
            match take_digits k' s' with
            | Some (d, rest) => Some (c :: d, rest)
            | None => None
            end
          else None
      end
  end.

Definition group_then_boundary (k : nat) (s : list char)
  : option (list char) :=
  match take_digits k s with
  | Some (d, rest) =>
      if boundary (last d None) (head rest) then Some d else None
  | None => None
  end.

Definition match_here (before : option char) (s : list char)
  : option (list char) :=
  if boundary before (head s) then
    Re.or_else (group_then_boundary 6 s)
      (Re.or_else (group_then_boundary 5 s)
         (Re.or_else (group_then_boundary 4 s)
            (group_then_boundary 3 s)))
  else None.

Fixpoint findall_from (before : option char) (skip : nat) (s : list char)
  : list (list char) :=
  match s with
  | [] => []
  | c :: s' =>
      match skip with
      | S k => findall_from (Some c) k s'
      | O =>
          match match_here before s with
          | Some d => d :: findall_from (Some c) (List.length d - 1) s'
          | None => findall_from (Some c) 0 s'
          end
      end
  end.

Definition findall (t : list char) : list (list char) :=
  findall_from None 0 t.

Fixpoint int_from (acc : Z) (s : list char) : Z :=
  match s with
  | [] => acc
  | c :: s' => int_from (acc * 10 + digit_value c)%Z s'
  end.

Definition int (s : list char) : Z := int_from 0 s.

(** Lines 107 and 108, on the lowercased text [t]. *)
Definition users_of (t : list char) : Z :=
  let nums := findall t in
  match nums with
  | n :: _ => int n
  | [] => 1000%Z
  end.

(** The vocabulary of the properties, as for ASCII text below. *)
Definition all_digits (s : list char) : bool := forallb is_digit s.

Definition no_digits (s : list char) : bool :=
  forallb (fun c => negb (is_digit c)) s.

Definition standalone_from (before : option char) (pre d post : list char)
  : Prop :=
  all_digits d = true /\
  (3 <= List.length d <= 6)%nat /\
  opt_word (last pre before) = false /\
  opt_word (head post) = false.

Definition first_standalone_from (before : option char) (t d : list char)
  : Prop :=
  exists pre post : list char,
    t = pre ++ d ++ post /\
    standalone_from before pre d post /\
    forall pre' d' post' : list char,
      t = pre' ++ d' ++ post' ->
      standalone_from before pre' d' post' ->
      (List.length pre <= List.length pre')%nat.

Definition no_standalone_from (before : option char) (t : list char) : Prop :=
  forall pre d post : list char,
    t = pre ++ d ++ post -> ~ standalone_from before pre d post.

Definition first_standalone (t d : list char) : Prop :=
  first_standalone_from None t d.

Definition no_standalone (t : list char) : Prop :=
  no_standalone_from None t.

End Pattern.

End Uni.

(* ------------------------------------------------------------------ *)
(** ** Registries *)

Definition MODULE_KEYWORDS : list (string * list string) :=
  [ ("FI", ["finance"; "ledger"; "invoice"; "tax"; "closing"]);
    ("MM", ["procure"; "procurement"; "purchase"; "supplier"; "inventory"]);
    ("SD", ["sales"; "order"; "customer"; "delivery"; "billing"]);
    ("PP", ["production"; "shop"; "mrp"; "bom"; "routing"]);
    ("QM", ["quality"; "inspection"; "defect"]);
    ("PM", ["maintenance"; "asset"; "breakdown"]);
    ("EWM", ["warehouse"; "wms"; "picking"; "putaway"]);
    ("BW/4HANA", ["analytics"; "bi"; "report"; "kpi"; "bw/4hana"]);
    ("Fiori", ["fiori"; "mobile"; "ui"]);
    ("IBP", ["forecast"; "planning"; "ibp"]);
    ("TM", ["freight"; "carrier"; "transport"]);
    ("MDG", ["master data"; "governance"; "mdg"]);
    ("S/4HANA", ["s/4hana"]) ].

Definition EXT_SYSTEMS : list (string * list string) :=
  [ ("Salesforce CRM", ["salesforce"]);
    ("Oracle DB (Legacy)", ["oracle"]);
    ("3PL / Logistics", ["3pl"; "logistics provider"]);
    ("E-commerce", ["shopify"; "magento"; "e-commerce"; "ecommerce"]);
    ("IoT Gateway", ["iot"; "sensor"; "plc"]);
    ("POS", ["pos"]);
    ("EHR", ["ehr"; "hl7"; "fhir"]) ].

Definition COMPLIANCE_WORDS : list string :=
  ["gdpr"; "hipaa"; "pci-dss"; "iso"].

(* ------------------------------------------------------------------ *)
(** ** [extract] *)

Record analysis : Type := mkAnalysis {
  modules : list string;
  external : list string;
  hosting : string;
  compliance : list string;
  users : Z
}.

Definition text_or_empty (text : option string) : string :=
  match text with
  | Some s => s
  | None => EmptyString
  end.

(** One turn of the loop over [MODULE_KEYWORDS.items()]. *)
Definition module_step (t : string) (mods : list string)
    (entry : string * list string) : list string :=
  let '(mod_, kws) := entry in
  if any_in kws t then set_add mod_ mods else mods.

(** The set [modules] after the loop. *)
Definition matched_modules (t : string) : list string :=
  fold_left (module_step t) MODULE_KEYWORDS [].

Definition is_empty {A} (l : list A) : bool :=
  match l with
  | [] => true
  | _ => false
  end.

Definition with_anchors (mods : list string) : list string :=
  if negb (is_empty mods)
  then set_add "Fiori" (set_add "S/4HANA" mods)
  else set_update ["S/4HANA"; "Fiori"] mods.

Definition matched_externals (t : string) : list string :=
  map fst (filter (fun '(_, kws) => any_in kws t) EXT_SYSTEMS).

Definition classify_hosting (t : string) : string :=
  let hosting := "S/4HANA Cloud" in
  let hosting :=
    if contains "on-prem" t || contains "on prem" t then "On-Prem" else hosting in
  let hosting := if contains "azure" t then "Azure Cloud" else hosting in
  let hosting := if contains "aws" t then "AWS Cloud" else hosting in
  let hosting := if contains "hybrid" t then "Hybrid" else hosting in
  hosting.

Definition matched_compliance (t : string) : list string :=
  fold_left
    (fun acc word => if contains word t then acc ++ [upper word] else acc)
    COMPLIANCE_WORDS [].

Definition users_hint (t : string) : Z :=
  let nums := Re.findall t in
  match nums with
  | n :: _ => int n
  | [] => 1000%Z
  end.

(** Lines 79 to 116: the profile read off the lowercased text [t]. *)
Definition profile_of (t : string) : analysis :=
  let modules := with_anchors (matched_modules t) in
  let externals := matched_externals t in
  let hosting := classify_hosting t in
  let compliance := matched_compliance t in
  let users := users_hint t in
  {| modules := sorted modules;
     external := externals;
     hosting := hosting;
     compliance := compliance;
     users := users |}.

Definition extract (text : option string) : analysis :=
  let t := lower (text_or_empty text) in
  profile_of t.

(* ------------------------------------------------------------------ *)
(** ** [build_dot] *)

Definition edge : Type := string * string.

Definition dquote : string := String (ascii_of_N 34) EmptyString.
Definition newline : string := String (ascii_of_N 10) EmptyString.

Definition ANCHORS : list string := ["S/4HANA"; "Fiori"].

(** The list [edges] after the three appends and the two loops. *)
Definition build_edges (a : analysis) : list edge :=
  let edges := [] in
  let edges := edges ++ [("Users", "Fiori")] in
  let edges := edges ++ [("Fiori", "S/4HANA")] in
  let edges := edges ++ [("S/4HANA", hosting a)] in
  let edges :=
    fold_left
      (fun es m => if negb (mem m ANCHORS) then es ++ [(m, "S/4HANA")] else es)
      (modules a) edges in
  let edges :=
    fold_left (fun es ext => es ++ [(ext, "S/4HANA")]) (external a) edges in
  edges.

(** [{n for a, b in edges for n in (a, b)}] *)
Definition graph_nodes (edges : list edge) : list string :=
  set_of_list (flat_map (fun '(a, b) => [a; b]) edges).

Definition node_line (n : string) : string :=
  (dquote ++ n ++ dquote ++ ";")%string.

Definition edge_line (e : edge) : string :=
  (dquote ++ fst e ++ dquote ++ " -> " ++ dquote ++ snd e ++ dquote ++ ";")%string.

Definition DOT_HEADER : list string :=
  ["digraph G {"; "rankdir=LR;"; "node [shape=box, style=rounded];"].

Definition dot_lines (a : analysis) : list string :=
  let edges := build_edges a in
  let nodes := graph_nodes edges in
  let dot := DOT_HEADER in
  let dot := fold_left (fun d n => d ++ [node_line n]) (sorted nodes) dot in
  let dot := fold_left (fun d e => d ++ [edge_line e]) edges dot in
  dot ++ ["}"].

Definition build_dot (a : analysis) : string :=
  join newline (dot_lines a).

(* ------------------------------------------------------------------ *)
(** ** [make_fmea] *)

Record fmea_item : Type := mkItem {
  Failure_Mode : string;
  Effect : string;
  Severity : Z;
  Occurrence : Z;
  Detection : Z;
  RPN : Z;
  Mitigations : list string
}.

(** The inner function [add]: appends one scored record to [items]. *)
Definition add (items : list fmea_item) (mode effect : string)
    (sev occ det : Z) (actions : list string) : list fmea_item :=
  let rpn := (sev * occ * det)%Z in
  items ++ [mkItem mode effect sev occ det rpn actions].

Definition many_integrations (a : analysis) : bool :=
  (2 <=? List.length (external a))%nat.

Definition cloud (a : analysis) : bool :=
  contains "Cloud" (hosting a) || mem (hosting a) ["AWS Cloud"; "Azure Cloud"].

Definition hybrid (a : analysis) : bool :=
  String.eqb (hosting a) "Hybrid".

(** [items] in declaration order, before the sort. *)
Definition fmea_catalog (a : analysis) : list fmea_item :=
  let items := [] in
  let items :=
    add items "Integration failure"
      "Orders/shipments stuck; revenue impact"
      9 (5 + (if many_integrations a then 1 else 0)) 5
      [ "Use standard IDoc/OData where possible";
        "Contract SLAs with external systems";
        "Retry & dead-letter queues; circuit breakers";
        "Observability on interfaces (alerts, traces)" ] in
  let items :=
    add items "Data migration error"
      "Inaccurate financials or inventory"
      8 4 6
      [ "Reconciliation runs & parity reports";
        "Master-data validation rules (MDG-style)";
        "Dry runs + cutover checklists" ] in
  let items :=
    add items "Security breach"
      "PII loss / compliance fines"
      10 3 4
      [ "RBAC & SoD; MFA/SSO";
        "Field-level encryption & masking";
        "Centralized audit logs; log retention" ] in
  let items :=
    add items "Performance degradation"
      "Slow UI and batch overruns"
      7 (4 + (if (2000 <? users a)%Z then 1 else 0)) 5
      [ "OData caching & CDS view tuning";
        "Archive/cold-store aged data";
        "Background jobs leveled; capacity tests" ] in
  let items :=
    add items "Availability / DR gap"
      "Extended outage"
      9 (3 + (if cloud a || hybrid a then 1 else 0)) 4
      [ "Automated backups; tested restore";
        "Cross-region replicas; failover drills";
        "RPO/RTO in runbooks" ] in
  let items :=
    add items "Master data quality issues"
      "Downstream errors across modules"
      8 5 6
      [ "Data ownership & stewardship";
        "Duplicate prevention, validations";
        "Golden-record governance" ] in
  items.

(** [list.sort(key=..., reverse=True)]: descending by key, and stable:
    equal keys keep their original relative order. *)
Fixpoint insert_desc {A} (key : A -> Z) (x : A) (l : list A) : list A :=
  match l with
  | [] => [x]
  | y :: l' =>
      if (key y <=? key x)%Z then x :: l else y :: insert_desc key x l'
  end.

Definition sort_desc {A} (key : A -> Z) (l : list A) : list A :=
  fold_right (insert_desc key) [] l.

Definition make_fmea (a : analysis) : list fmea_item :=
  sort_desc RPN (fmea_catalog a).

(* ------------------------------------------------------------------ *)
(** ** [mitigation_narrative] *)

Definition BLOCK_INTEGRATION : string :=
  ("- **Integration failure:** Prefer *standard SAP APIs* (OData/IDoc), stabilize with message queues "
   ++ "(retry + DLQ). Monitor flows with **open-source Prometheus/Grafana**; contract SLAs with 3rd parties.")%string.

Definition BLOCK_MIGRATION : string :=
  ("- **Data migration error:** Use reconciliation reports and trial cutovers; apply **data quality rules** "
   ++ "and duplicate checks (MDG principles). Validate with **Great Expectations** (open-source).")%string.

Definition BLOCK_SECURITY : string :=
  ("- **Security breach:** Enforce **RBAC/SoD** and SSO/MFA; encrypt in transit/at rest; enable field masking; "
   ++ "centralize audit logs; periodic access reviews.")%string.

Definition BLOCK_AVAILABILITY : string :=
  ("- **Availability/DR:** Automate backups, test restore, configure cross-region replicas and run **failover drills**; "
   ++ "document RPO/RTO and escalation runbooks.")%string.

Definition BLOCK_PERFORMANCE : string :=
  "- **Performance:** Tune CDS views, cache OData, level background jobs; run load tests; archive historical data.".

Definition BLOCK_MASTER_DATA : string :=
  ("- **Master data quality:** Define data owners/stewards; validations and duplicate prevention; "
   ++ "golden-record governance and change workflows.")%string.

Definition BLOCK_GDPR : string :=
  "- **GDPR:** Minimize PII, masking/pseudonymization, consent tracking, and retention schedules.".

Definition BLOCK_HIPAA : string :=
  "- **HIPAA:** End-to-end encryption, BAA with vendors, and strict audit logging.".

Definition NO_HIGH_RISKS : string :=
  "- No high risks detected beyond standard good practices.".

(** The [if]/[elif] chain on [mode]; [None] when no branch is taken. *)
Definition narrative_block (mode : string) : option string :=
  if String.eqb mode "Integration failure" then Some BLOCK_INTEGRATION
  else if String.eqb mode "Data migration error" then Some BLOCK_MIGRATION
  else if String.eqb mode "Security breach" then Some BLOCK_SECURITY
  else if String.eqb mode "Availability / DR gap" then Some BLOCK_AVAILABILITY
  else if String.eqb mode "Performance degradation" then Some BLOCK_PERFORMANCE
  else if String.eqb mode "Master data quality issues" then Some BLOCK_MASTER_DATA
  else None.

(** The loop over [fmea_items[:4]]. *)
Definition narrative_bullets (fmea_items : list fmea_item) : list string :=
  fold_left
    (fun bullets row =>
       match narrative_block (Failure_Mode row) with
       | Some b => bullets ++ [b]
       | None => bullets
       end)
    (firstn 4 fmea_items) [].

(** [analysis.get("compliance", [])] is the field [compliance]: the record
    always has it. *)
Definition narrative_extra (a : analysis) : list string :=
  let extra := [] in
  let extra := if mem "GDPR" (compliance a) then extra ++ [BLOCK_GDPR] else extra in
  let extra := if mem "HIPAA" (compliance a) then extra ++ [BLOCK_HIPAA] else extra in
  extra.

Definition narrative_text (fmea_items : list fmea_item) (a : analysis) : string :=
  join newline (narrative_bullets fmea_items ++ narrative_extra a).

(** [text or default]: the empty string is falsy. *)
Definition mitigation_narrative (fmea_items : list fmea_item) (a : analysis)
  : string :=
  let text := narrative_text fmea_items a in
  if String.eqb text EmptyString then NO_HIGH_RISKS else text.

(* ------------------------------------------------------------------ *)
(** ** Vocabulary of the properties *)

(** A keyword of some tag of a registry occurs in [t]. *)
Definition keyword_hit (registry : list (string * list string)) (t : string)
  : Prop :=
  exists tag kws kw,
    In (tag, kws) registry /\ In kw kws /\ occurs_in kw t.

Fixpoint all_digits (s : string) : bool :=
  match s with
  | EmptyString => true
  | String c s' => is_digit c && all_digits s'
  end.

Fixpoint no_digits (s : string) : bool :=
  match s with
  | EmptyString => true
  | String c s' => negb (is_digit c) && no_digits s'
  end.

(** [d] is a run of 3 to 6 digits, delimited on both sides by a non-word
    character or by an end of the text.  [before] is the character in front
    of [pre], if any. *)
Definition standalone_from (before : option ascii) (pre d post : string)
  : Prop :=
  all_digits d = true /\
  (3 <= String.length d <= 6)%nat /\
  Re.opt_word (Re.last pre before) = false /\
  Re.opt_word (Re.head post) = false.

Definition first_standalone_from (before : option ascii) (t d : string)
  : Prop :=
  exists pre post : string,
    t = (pre ++ d ++ post)%string /\
    standalone_from before pre d post /\
    forall pre' d' post' : string,
      t = (pre' ++ d' ++ post')%string ->
      standalone_from before pre' d' post' ->
      (String.length pre <= String.length pre')%nat.

Definition no_standalone_from (before : option ascii) (t : string) : Prop :=
  forall pre d post : string,
    t = (pre ++ d ++ post)%string -> ~ standalone_from before pre d post.

(** The first standalone number of 3 to 6 digits of a whole text. *)
Definition first_standalone (t d : string) : Prop :=
  first_standalone_from None t d.

Definition no_standalone (t : string) : Prop :=
  no_standalone_from None t.

(** The hosting rule as an ordered table of (keywords, value) pairs applied
    in sequence to the default value: every rule that fires overwrites the
    value reached so far. *)
Definition HOSTING_DEFAULT : string := "S/4HANA Cloud".

Definition HOSTING_RULES : list (list string * string) :=
  [ (["on-prem"; "on prem"], "On-Prem");
    (["azure"], "Azure Cloud");
    (["aws"], "AWS Cloud");
    (["hybrid"], "Hybrid") ].

Definition hosting_chain (t : string) : string :=
  fold_left
    (fun current '(kws, value) => if any_in kws t then value else current)
    HOSTING_RULES HOSTING_DEFAULT.

(** Descending order of the keys of a list. *)
Definition descending {A} (key : A -> Z) (l : list A) : Prop :=
  StronglySorted (fun x y => (key y <= key x)%Z) l.

(** Stability with respect to [l0]: records of equal key appear in [l] in
    the order they have in [l0]. *)
Definition keeps_order_of_ties {A} (key : A -> Z) (l0 l : list A) : Prop :=
  forall v : Z,
    filter (fun x => (key x =? v)%Z) l = filter (fun x => (key x =? v)%Z) l0.

(** Ascending code-point order, strict: sorted and duplicate-free. *)
Definition ascending (l : list string) : Prop :=
  StronglySorted (fun x y => String.ltb x y = true) l.

(** [row] for the first record of [items] whose mode is [mode]. *)
Definition find_mode (mode : string) (items : list fmea_item)
  : option fmea_item :=
  find (fun r => String.eqb (Failure_Mode r) mode) items.

Definition occurrence_of (mode : string) (items : list fmea_item) : option Z :=
  option_map Occurrence (find_mode mode items).

Definition rpn_of (mode : string) (items : list fmea_item) : option Z :=
  option_map RPN (find_mode mode items).

(** A hosting value that names a cloud, or the hybrid one. *)
Definition cloud_or_hybrid (h : string) : Prop :=
  occurs_in "Cloud" h \/ h = "Hybrid".

(** The failure modes in declaration order. *)
Definition FAILURE_MODES : list string :=
  [ "Integration failure"; "Data migration error"; "Security breach";
    "Performance degradation"; "Availability / DR gap";
    "Master data quality issues" ].

Definition option_list {A} (o : option A) : list A :=
  match o with
  | Some x => [x]
  | None => []
  end.

(** The text of the end-to-end scenario. *)
Definition SCENARIO : string :=
  "Implement S/4HANA finance and procurement, integrate Salesforce and 3PL, deploy on AWS, GDPR compliance, 5000 users".

(** The hosting values that [extract] can produce. *)
Definition HOSTING_VALUES : list string :=
  ["S/4HANA Cloud"; "On-Prem"; "Azure Cloud"; "AWS Cloud"; "Hybrid"].

(* ------------------------------------------------------------------ *)
(** ** [run_agents] *)

(** [str(n)] on an [int], as the f-string of the Performance Engineer
    formats it: decimal digits, a minus sign in front of a negative
    number. *)
Definition str_of_int (n : Z) : string :=
  DecimalString.NilZero.string_of_int (Z.to_int n).

(** The sign U+2264 of the DR rule, held as its three UTF-8 bytes. *)
Definition LE_SIGN : string :=
  String (ascii_of_N 226)
    (String (ascii_of_N 137) (String (ascii_of_N 164) EmptyString)).

(** The ten (name, rule) pairs, in declaration order.  In the Security
    Architect rule the conditional expression binds weaker than [+]: its
    [else] branch replaces the whole text. *)
Definition AGENTS : list (string * (analysis -> string)) :=
  [ ("Requirements Analyst",
     fun a => "Scope confirmed; clarify volumes, SLAs, and localization packs.");
    ("Process Mapper",
     fun a => "Map O2C (SD), P2P (MM/Ariba), RtR (FI), Mfg (PP/QM/PM) as applicable.");
    ("Module Recommender",
     fun a => ("Active modules: " ++ join ", " (modules a))%string);
    ("Integration Planner",
     fun a => ("Integrations: "
               ++ (if negb (is_empty (external a))
                   then join ", " (external a)
                   else "Standard SAP APIs only"))%string);
    ("Security Architect",
     fun a => if negb (is_empty (compliance a))
              then ("RBAC, SoD, encryption in transit/at rest; audit trails for "
                    ++ join ", " (compliance a))%string
              else "RBAC, SoD, encryption; enable audit trails.");
    ("Performance Engineer",
     fun a => ("Design for ~" ++ str_of_int (users a)
               ++ " users; cache OData; batch heavy jobs.")%string);
    ("Data Architect",
     fun a => "Use BW/4HANA for KPIs; MDG for golden records if multiple sources.");
    ("DR & Resilience",
     fun a => ("Cross-region DR; RPO " ++ LE_SIGN ++ " 15m, RTO " ++ LE_SIGN
               ++ " 2h; frequent backups.")%string);
    ("Testing Lead",
     fun a => "Automate regression for O2C/P2P/RtR + smoke performance tests.");
    ("Change Manager",
     fun a => "Fit-to-Standard; phased releases; training & hypercare.") ].

Record agent_finding : Type := mkFinding {
  agent : string;
  finding : string
}.

Definition run_agents (a : analysis) : list agent_finding :=
  map (fun '(name, rule) => mkFinding name (rule a)) AGENTS.

(* ------------------------------------------------------------------ *)
(** ** Further vocabulary *)

(** [l] is [big] with some elements left out, the order kept. *)
Inductive subsequence {A : Type} : list A -> list A -> Prop :=
| subsequence_nil : subsequence [] []
| subsequence_skip (x : A) (l big : list A) :
    subsequence l big -> subsequence l (x :: big)
| subsequence_keep (x : A) (l big : list A) :
    subsequence l big -> subsequence (x :: l) (x :: big).

(** The module tags of a profile that get an edge of their own. *)
Definition non_anchor_modules (a : analysis) : list string :=
  filter (fun m => negb (mem m ANCHORS)) (modules a).

(** The compliance tags in scan order. *)
Definition COMPLIANCE_TAGS : list string :=
  ["GDPR"; "HIPAA"; "PCI-DSS"; "ISO"].

(** The order of the failure modes by RPN, from the three heuristics. *)
Definition ranked_modes (many heavy cloudy : bool) : list string :=
  (if many
   then ["Integration failure"; "Master data quality issues"]
   else ["Master data quality issues"; "Integration failure"])
  ++ ["Data migration error"]
  ++ (if heavy
      then (if cloudy
            then ["Performance degradation"; "Availability / DR gap";
                  "Security breach"]
            else ["Performance degradation"; "Security breach";
                  "Availability / DR gap"])
      else (if cloudy
            then ["Availability / DR gap"; "Performance degradation";
                  "Security breach"]
            else ["Performance degradation"; "Security breach";
                  "Availability / DR gap"])).

(** The narrative blocks of the six failure modes, in catalog order. *)
Definition MODE_BLOCKS : list string :=
  [ BLOCK_INTEGRATION; BLOCK_MIGRATION; BLOCK_SECURITY; BLOCK_PERFORMANCE;
    BLOCK_AVAILABILITY; BLOCK_MASTER_DATA ].

(** The lines of the narrative before they are joined. *)
Definition narrative_lines (fmea_items : list fmea_item) (a : analysis)
  : list string :=
  narrative_bullets fmea_items ++ narrative_extra a.

Definition AGENT_NAMES : list string :=
  [ "Requirements Analyst"; "Process Mapper"; "Module Recommender";
    "Integration Planner"; "Security Architect"; "Performance Engineer";
    "Data Architect"; "DR & Resilience"; "Testing Lead"; "Change Manager" ].

(** The agents whose rule reads the profile. *)
Definition PROFILE_AGENTS : list string :=
  [ "Module Recommender"; "Integration Planner"; "Security Architect";
    "Performance Engineer" ].

(** The finding of the agent [name]. *)
Definition finding_of (name : string) (findings : list agent_finding)
  : option string :=
  option_map finding
    (find (fun f => String.eqb (agent f) name) findings).

(* ================================================================== *)
(** * Properties *)

(* ------------------------------------------------------------------ *)
(** ** Evaluation on small inputs *)

Example contains_inside_word : contains "oracle" "coracles" = true.
Proof. reflexivity. Qed.

Example lower_mixed : lower "Fiori-App 7_X" = "fiori-app 7_x".
Proof. reflexivity. Qed.

Example upper_pci : upper "pci-dss" = "PCI-DSS".
Proof. reflexivity. Qed.

Example sorted_code_points :
  sorted ["S/4HANA"; "SD"; "Fiori"; "FI"; "MM"]
  = ["FI"; "Fiori"; "MM"; "S/4HANA"; "SD"].
Proof. reflexivity. Qed.

Example findall_two : Re.findall "123 and 456789" = ["123"; "456789"].
Proof. reflexivity. Qed.

Example findall_too_long : Re.findall "1234567" = [].
Proof. reflexivity. Qed.

Example findall_glued : Re.findall "abc123 x_456 12" = [].
Proof. reflexivity. Qed.

Example findall_separator : Re.findall "1,250 users in 3.5 years" = ["250"].
Proof. reflexivity. Qed.

Example int_leading_zero : int "0420" = 420%Z.
Proof. reflexivity. Qed.

Example extract_absent :
  extract None
  = mkAnalysis ["Fiori"; "S/4HANA"] [] "S/4HANA Cloud" [] 1000.
Proof. reflexivity. Qed.

Example sort_desc_keeps_ties :
  sort_desc snd [("a", 1%Z); ("b", 3%Z); ("c", 1%Z); ("d", 3%Z)]
  = [("b", 3%Z); ("d", 3%Z); ("a", 1%Z); ("c", 1%Z)].
Proof. reflexivity. Qed.

Example make_fmea_default_order :
  map Failure_Mode (make_fmea (extract None))
  = [ "Master data quality issues"; "Integration failure";
      "Data migration error"; "Availability / DR gap";
      "Performance degradation"; "Security breach" ].
Proof. reflexivity. Qed.

(* ------------------------------------------------------------------ *)
(** ** Strings *)

Section StringFacts.

Local Open Scope string_scope.

Lemma append_nil_r (s : string) : s ++ EmptyString = s.
Proof. induction s as [|c s IH]; simpl; [reflexivity | now rewrite IH]. Qed.

Lemma append_assoc (a b c : string) : (a ++ b) ++ c = a ++ (b ++ c).
Proof. induction a as [|x a IH]; simpl; [reflexivity | now rewrite IH]. Qed.

Lemma prefix_spec (kw t : string) :
  prefix kw t = true <-> exists post, t = kw ++ post.
Proof.
  revert t; induction kw as [|c kw IH]; intros t.
  - split; [intros _; now exists t | intros _; now destruct t].
  - destruct t as [|c' t]; simpl.
    + split; [discriminate | intros [post H]; discriminate].
    + destruct (ascii_dec c c') as [->|Hne].
      * rewrite IH. split; intros [post H]; exists post.
        -- now rewrite H.
        -- now inversion H.
      * split; [discriminate | intros [post H]; inversion H; congruence].
Qed.

Lemma contains_nil (kw : string) :
  contains kw EmptyString = prefix kw EmptyString.
Proof. simpl. apply orb_false_r. Qed.

Lemma contains_cons (kw : string) (c : ascii) (t : string) :
  contains kw (String c t) = prefix kw (String c t) || contains kw t.
Proof. reflexivity. Qed.

Lemma contains_spec (kw t : string) :
  contains kw t = true <-> occurs_in kw t.
Proof.
  unfold occurs_in. induction t as [|c t IH].
  - rewrite contains_nil, prefix_spec. split.
    + intros [post H]. now exists EmptyString, post.
    + intros [pre [post H]]. destruct pre; simpl in H.
      * now exists post.
      * discriminate.
  - rewrite contains_cons, orb_true_iff, prefix_spec, IH. split.
    + intros [[post H] | [pre [post H]]].
      * now exists EmptyString, post.
      * exists (String c pre), post. simpl. now rewrite H.
    + intros [pre [post H]]. destruct pre as [|c' pre]; simpl in H.
      * left. now exists post.
      * right. inversion H. now exists pre, post.
Qed.

Lemma contains_false (kw t : string) :
  contains kw t = false <-> ~ occurs_in kw t.
Proof.
  rewrite <- contains_spec. destruct (contains kw t); split; intros H;
    try reflexivity; try discriminate; try (intros H'; discriminate).
  now elim H.
Qed.

Lemma any_in_spec (kws : list string) (t : string) :
  any_in kws t = true <-> exists kw, In kw kws /\ occurs_in kw t.
Proof.
  unfold any_in. rewrite existsb_exists.
  split; intros [kw [Hin H]]; exists kw; split; auto;
    now apply contains_spec.
Qed.

Lemma mem_spec (x : string) (xs : list string) :
  mem x xs = true <-> In x xs.
Proof.
  unfold mem. rewrite existsb_exists. split.
  - intros [y [Hin H]]. apply String.eqb_eq in H. now subst.
  - intros H. exists x. split; [assumption | apply String.eqb_refl].
Qed.

Lemma occurs_in_refl (s : string) : occurs_in s s.
Proof. exists EmptyString, EmptyString. simpl. now rewrite append_nil_r. Qed.

(** A line of a joined text occurs in it. *)
Lemma occurs_in_join (sep x : string) (ls : list string) :
  In x ls -> occurs_in x (join sep ls).
Proof.
  unfold join. induction ls as [|y ls IH]; intros Hin; [contradiction|].
  destruct Hin as [->|Hin].
  - destruct ls as [|z ls]; simpl.
    + apply occurs_in_refl.
    + exists EmptyString, (sep ++ concat sep (z :: ls)). reflexivity.
  - destruct ls as [|z ls]; [contradiction|].
    specialize (IH Hin). change (concat sep (y :: z :: ls))
      with (y ++ sep ++ concat sep (z :: ls)).
    destruct IH as [pre [post ->]].
    exists (y ++ sep ++ pre), post. now rewrite !append_assoc.
Qed.

Lemma join_nonempty (sep x : string) (ls : list string) :
  In x ls -> x <> EmptyString -> join sep ls <> EmptyString.
Proof.
  intros Hin Hx Hj. destruct (occurs_in_join sep x ls Hin) as [pre [post H]].
  rewrite Hj in H. destruct pre; simpl in H; [|discriminate].
  destruct x; [now apply Hx | discriminate].
Qed.

End StringFacts.

(* ------------------------------------------------------------------ *)
(** ** The code-point order of strings *)

Section StringOrder.

(** [String.compare] is the comparison of the ordered type of strings. *)
Lemma compare_as_OT (a b : string) :
  String.compare a b = String_as_OT.compare a b.
Proof. reflexivity. Qed.

Lemma ltb_trans (a b c : string) :
  String.ltb a b = true -> String.ltb b c = true -> String.ltb a c = true.
Proof.
  unfold String.ltb. intros H1 H2.
  destruct (String.compare a b) eqn:Hab; try discriminate H1.
  destruct (String.compare b c) eqn:Hbc; try discriminate H2.
  rewrite compare_as_OT in Hab, Hbc.
  assert (H : String_as_OT.lt a c)
    by (transitivity b; [exact Hab | exact Hbc]).
  unfold String_as_OT.lt in H. rewrite <- compare_as_OT in H. now rewrite H.
Qed.

Lemma ltb_irrefl (a : string) : String.ltb a a = false.
Proof.
  unfold String.ltb. pose proof (String.compare_antisym a a) as H.
  destruct (String.compare a a); simpl in H; try discriminate H; reflexivity.
Qed.

Lemma leb_ltb (a b : string) :
  String.leb a b = true -> a <> b -> String.ltb a b = true.
Proof.
  unfold String.leb, String.ltb.
  destruct (String.compare a b) eqn:H; try discriminate; try reflexivity.
  intros _ Hne. apply String.compare_eq_iff in H. contradiction.
Qed.

Lemma leb_false_ltb (a b : string) :
  String.leb a b = false -> String.ltb b a = true.
Proof.
  unfold String.leb, String.ltb. rewrite (String.compare_antisym a b).
  destruct (String.compare b a); simpl; congruence.
Qed.

End StringOrder.

(* ------------------------------------------------------------------ *)
(** ** Sets as duplicate-free lists, and [sorted] *)

Section SetsAndSorting.

Lemma set_add_In (x y : string) (s : list string) :
  In y (set_add x s) <-> y = x \/ In y s.
Proof.
  induction s as [|z s IH]; simpl.
  - intuition.
  - destruct (String.eqb_spec x z) as [->|Hne]; simpl.
    + intuition.
    + rewrite IH. intuition.
Qed.

Lemma set_add_NoDup (x : string) (s : list string) :
  NoDup s -> NoDup (set_add x s).
Proof.
  induction s as [|z s IH]; simpl; intros Hnd.
  - constructor; [intros [] | constructor].
  - destruct (String.eqb_spec x z) as [->|Hne]; [assumption|].
    inversion Hnd; subst. constructor.
    + rewrite set_add_In. intros [->|H]; [now apply Hne | contradiction].
    + now apply IH.
Qed.

Lemma set_update_In (xs s : list string) (y : string) :
  In y (set_update xs s) <-> In y xs \/ In y s.
Proof.
  unfold set_update. revert s; induction xs as [|x xs IH]; intros s; simpl.
  - intuition.
  - rewrite IH, set_add_In. intuition.
Qed.

Lemma set_update_NoDup (xs s : list string) :
  NoDup s -> NoDup (set_update xs s).
Proof.
  unfold set_update. revert s; induction xs as [|x xs IH]; intros s H; simpl.
  - assumption.
  - apply IH. now apply set_add_NoDup.
Qed.

Lemma insert_sorted_perm (x : string) (l : list string) :
  Permutation (x :: l) (insert_sorted x l).
Proof.
  induction l as [|y l IH]; simpl.
  - apply Permutation_refl.
  - destruct (String.leb x y).
    + apply Permutation_refl.
    + eapply perm_trans; [apply perm_swap | now apply perm_skip].
Qed.

Lemma sorted_perm (l : list string) : Permutation l (sorted l).
Proof.
  induction l as [|x l IH]; simpl.
  - constructor.
  - eapply perm_trans; [apply perm_skip, IH | apply insert_sorted_perm].
Qed.

Lemma sorted_In (l : list string) (x : string) : In x (sorted l) <-> In x l.
Proof.
  split; apply Permutation_in;
    [apply Permutation_sym|]; apply sorted_perm.
Qed.

Lemma sorted_NoDup (l : list string) : NoDup l -> NoDup (sorted l).
Proof. apply Permutation_NoDup, sorted_perm. Qed.

Lemma insert_sorted_ascending (x : string) (l : list string) :
  ~ In x l -> ascending l -> ascending (insert_sorted x l).
Proof.
  unfold ascending. induction l as [|y l IH]; simpl; intros Hnin Hs.
  - constructor; constructor.
  - inversion Hs as [|? ? Hs' Hall]; subst.
    destruct (String.leb x y) eqn:Hle.
    + assert (Hxy : String.ltb x y = true)
        by (apply leb_ltb; [assumption | intros ->; apply Hnin; now left]).
      constructor; [assumption|]. constructor; [assumption|].
      eapply Forall_impl; [|exact Hall].
      intros z Hz. now apply ltb_trans with y.
    + constructor.
      * apply IH; [intros H; apply Hnin; now right | assumption].
      * apply Forall_forall. intros z Hz.
        apply (Permutation_in _ (Permutation_sym (insert_sorted_perm x l)))
          in Hz.
        destruct Hz as [<-|Hz].
        -- now apply leb_false_ltb.
        -- rewrite Forall_forall in Hall. now apply Hall.
Qed.

Lemma sorted_ascending (l : list string) : NoDup l -> ascending (sorted l).
Proof.
  induction l as [|x l IH]; simpl; intros Hnd.
  - constructor.
  - inversion Hnd; subst. apply insert_sorted_ascending.
    + now rewrite sorted_In.
    + now apply IH.
Qed.

Lemma ascending_NoDup (l : list string) : ascending l -> NoDup l.
Proof.
  unfold ascending. induction 1 as [|x l Hs IH Hall]; constructor; auto.
  intros Hin. rewrite Forall_forall in Hall. specialize (Hall x Hin).
  now rewrite ltb_irrefl in Hall.
Qed.

End SetsAndSorting.

(* ------------------------------------------------------------------ *)
(** ** [extract]: the module tags *)

Section ExtractModules.

Variable t : string.

Lemma fold_modules_In (registry : list (string * list string))
    (acc : list string) (tag : string) :
  In tag (fold_left (module_step t) registry acc) <->
  In tag acc \/ exists kws, In (tag, kws) registry /\ any_in kws t = true.
Proof.
  revert acc; induction registry as [|[m kws] registry IH]; intros acc; simpl.
  - split; [auto | intros [H|[kws [[] _]]]; assumption].
  - rewrite IH. destruct (any_in kws t) eqn:Hany.
    + rewrite set_add_In. split.
      * intros [[->|H]|[kws' [Hin H]]]; eauto.
      * intros [H|[kws' [[Heq|Hin] H]]]; eauto.
        inversion Heq; subst. auto.
    + split.
      * intros [H|[kws' [Hin H]]]; eauto.
      * intros [H|[kws' [[Heq|Hin] H]]]; eauto.
        inversion Heq; subst. congruence.
Qed.

Lemma fold_modules_NoDup (registry : list (string * list string))
    (acc : list string) :
  NoDup acc -> NoDup (fold_left (module_step t) registry acc).
Proof.
  revert acc; induction registry as [|[m kws] registry IH]; intros acc H; simpl.
  - assumption.
  - apply IH. destruct (any_in kws t); [now apply set_add_NoDup | assumption].
Qed.

Lemma matched_modules_In (tag : string) :
  In tag (matched_modules t) <->
  exists kws kw, In (tag, kws) MODULE_KEYWORDS /\ In kw kws /\ occurs_in kw t.
Proof.
  unfold matched_modules. rewrite fold_modules_In. split.
  - intros [[]|[kws [Hin Hany]]]. apply any_in_spec in Hany.
    destruct Hany as [kw [Hkw Hocc]]. now exists kws, kw.
  - intros [kws [kw [Hin [Hkw Hocc]]]]. right. exists kws. split; [assumption|].
    apply any_in_spec. now exists kw.
Qed.

Lemma matched_modules_NoDup : NoDup (matched_modules t).
Proof.
  unfold matched_modules. apply fold_modules_NoDup. constructor.
Qed.

Lemma matched_modules_nil :
  ~ keyword_hit MODULE_KEYWORDS t -> matched_modules t = [].
Proof.
  intros Hno. destruct (matched_modules t) as [|tag l] eqn:Heq; [reflexivity|].
  exfalso. apply Hno.
  assert (Hin : In tag (matched_modules t)) by (rewrite Heq; now left).
  apply matched_modules_In in Hin. destruct Hin as [kws [kw H]].
  now exists tag, kws, kw.
Qed.

End ExtractModules.

Lemma with_anchors_In (mods : list string) (tag : string) :
  In tag (with_anchors mods) <-> tag = "S/4HANA" \/ tag = "Fiori" \/ In tag mods.
Proof.
  unfold with_anchors. destruct mods as [|m mods]; simpl negb; cbv iota.
  - rewrite set_update_In. simpl. intuition.
  - rewrite !set_add_In. intuition.
Qed.

Lemma with_anchors_NoDup (mods : list string) :
  NoDup mods -> NoDup (with_anchors mods).
Proof.
  unfold with_anchors. intros H. destruct (negb (is_empty mods)).
  - now apply set_add_NoDup, set_add_NoDup.
  - now apply set_update_NoDup.
Qed.

(** Deciding [keyword_hit] by running the keyword tests. *)
Lemma keyword_hit_dec (registry : list (string * list string)) (t : string) :
  keyword_hit registry t <->
  existsb (fun entry => any_in (snd entry) t) registry = true.
Proof.
  unfold keyword_hit. rewrite existsb_exists. split.
  - intros [tag [kws [kw [Hin [Hkw Hocc]]]]]. exists (tag, kws).
    split; [assumption|]. apply any_in_spec. now exists kw.
  - intros [[tag kws] [Hin Hany]]. apply any_in_spec in Hany.
    destruct Hany as [kw [Hkw Hocc]]. now exists tag, kws, kw.
Qed.

(** C1. The registry has 13 tags.  For every input text, absent or empty
    included, and whatever its lowercased form [t] is (the statement holds
    for every lowercasing, so also for [str.lower] on text outside ASCII),
    the modules of the profile contain both anchor tags "S/4HANA" and
    "Fiori"; a tag is in the list exactly when it is an anchor or one of its
    keywords occurs in [t]; and when no module keyword occurs in [t], the
    list is exactly the two anchor tags.  [extract text] is
    [profile_of (lower (text_or_empty text))]. *)
Theorem extract_modules_anchors
    (lowering : string -> string) (text : option string) :
  let t := lowering (text_or_empty text) in
  let mods := modules (profile_of t) in
  List.length MODULE_KEYWORDS = 13%nat /\
  In "S/4HANA" mods /\
  In "Fiori" mods /\
  (forall tag,
      In tag mods <->
      tag = "S/4HANA" \/ tag = "Fiori" \/
      exists kws kw,
        In (tag, kws) MODULE_KEYWORDS /\ In kw kws /\ occurs_in kw t) /\
  (~ keyword_hit MODULE_KEYWORDS t -> mods = ["Fiori"; "S/4HANA"]).
Proof.
  intros t mods. unfold mods, profile_of. cbn [modules].
  assert (Hchar : forall tag,
      In tag (sorted (with_anchors (matched_modules t))) <->
      tag = "S/4HANA" \/ tag = "Fiori" \/
      exists kws kw,
        In (tag, kws) MODULE_KEYWORDS /\ In kw kws /\ occurs_in kw t).
  { intros tag. now rewrite sorted_In, with_anchors_In, matched_modules_In. }
  split; [reflexivity|].
  split; [apply Hchar; now left|].
  split; [apply Hchar; right; now left|].
  split; [exact Hchar|].
  intros Hno. now rewrite (matched_modules_nil t Hno).
Qed.

Lemma extract_modules_anchors_witness :
  ~ keyword_hit MODULE_KEYWORDS (lower (text_or_empty (Some "Hello, World")))
  /\ modules (extract (Some "Hello, World")) = ["Fiori"; "S/4HANA"].
Proof.
  assert (Hno : ~ keyword_hit MODULE_KEYWORDS
                  (lower (text_or_empty (Some "Hello, World")))).
  { rewrite keyword_hit_dec. vm_compute. discriminate. }
  split; [exact Hno|].
  exact (proj2 (proj2 (proj2 (proj2
           (extract_modules_anchors lower (Some "Hello, World"))))) Hno).
Defined.

(** C10. For every input text, the modules list of the profile is
    duplicate-free and in ascending code-point order. *)
Theorem extract_modules_sorted (text : option string) :
  NoDup (modules (extract text)) /\
  ascending (modules (extract text)) /\
  StronglySorted (fun x y => String.leb x y = true) (modules (extract text)).
Proof.
  assert (Hnd : NoDup (with_anchors
                         (matched_modules (lower (text_or_empty text)))))
    by apply with_anchors_NoDup, matched_modules_NoDup.
  assert (Hasc : ascending (modules (extract text)))
    by (apply sorted_ascending, Hnd).
  split; [|split].
  - now apply ascending_NoDup.
  - exact Hasc.
  - unfold ascending in Hasc. revert Hasc.
    generalize (modules (extract text)). induction 1 as [|x l Hs IH Hall];
      constructor; auto.
    eapply Forall_impl; [|exact Hall]. intros y Hy. unfold String.leb.
    unfold String.ltb in Hy. now destruct (String.compare x y).
Qed.

(* ------------------------------------------------------------------ *)
(** ** [extract]: hosting *)

Ltac by_running :=
  first [ apply contains_spec | apply contains_false ];
  vm_compute; reflexivity.

Lemma classify_hosting_chain (t : string) :
  classify_hosting t = hosting_chain t.
Proof.
  unfold classify_hosting, hosting_chain, HOSTING_RULES, HOSTING_DEFAULT,
    any_in.
  simpl. now rewrite !orb_false_r.
Qed.

(** C2, as stated: an input with "azure" and "aws" is not always classified
    as "AWS Cloud"; the later Hybrid test overwrites it. *)
Lemma hosting_azure_aws_counterexample :
  ~ (forall text : option string,
        let t := lower (text_or_empty text) in
        occurs_in "azure" t -> occurs_in "aws" t ->
        hosting (extract text) = "AWS Cloud").
Proof.
  intros H.
  specialize (H (Some "Hybrid landscape on Azure and AWS")).
  cbv zeta in H.
  assert (Hh : hosting (extract (Some "Hybrid landscape on Azure and AWS"))
               = "Hybrid") by (vm_compute; reflexivity).
  rewrite Hh in H. discriminate H; by_running.
Qed.

(** C2, amended. Hosting is the sequential override chain over the default
    "S/4HANA Cloud" with the tests on-prem, azure, aws, hybrid in that order,
    the last positive test winning: "hybrid" gives "Hybrid" (so also together
    with an on-prem keyword); "aws" without "hybrid" gives "AWS Cloud" (so
    also together with "azure"); "azure" without the later two gives
    "Azure Cloud"; an on-prem keyword without the later three gives
    "On-Prem"; no keyword gives the default. *)
Theorem extract_hosting_override_chain (text : option string) :
  let t := lower (text_or_empty text) in
  let h := hosting (extract text) in
  h = hosting_chain t /\
  (occurs_in "hybrid" t -> h = "Hybrid") /\
  (~ occurs_in "hybrid" t -> occurs_in "aws" t -> h = "AWS Cloud") /\
  (~ occurs_in "hybrid" t -> ~ occurs_in "aws" t -> occurs_in "azure" t ->
   h = "Azure Cloud") /\
  (~ occurs_in "hybrid" t -> ~ occurs_in "aws" t -> ~ occurs_in "azure" t ->
   occurs_in "on-prem" t \/ occurs_in "on prem" t -> h = "On-Prem") /\
  (~ occurs_in "hybrid" t -> ~ occurs_in "aws" t -> ~ occurs_in "azure" t ->
   ~ occurs_in "on-prem" t -> ~ occurs_in "on prem" t ->
   h = "S/4HANA Cloud").
Proof.
  intros t h. unfold h, extract, profile_of. fold t. cbn [hosting].
  split; [apply classify_hosting_chain|].
  unfold classify_hosting.
  rewrite <- !contains_false, <- !contains_spec.
  destruct (contains "hybrid" t), (contains "aws" t), (contains "azure" t),
    (contains "on-prem" t), (contains "on prem" t); simpl;
    repeat split; intros; try reflexivity; try discriminate;
    repeat match goal with
           | H : _ \/ _ |- _ => destruct H
           end; discriminate.
Qed.

Lemma extract_hosting_override_chain_witness :
  hosting (extract (Some "On-prem core, hybrid later")) = "Hybrid" /\
  hosting (extract (Some "Deploy on Azure and AWS")) = "AWS Cloud" /\
  hosting (extract (Some "Deploy on Azure")) = "Azure Cloud" /\
  hosting (extract (Some "Keep it on prem")) = "On-Prem" /\
  hosting (extract (Some "Finance only")) = "S/4HANA Cloud".
Proof.
  split; [|split; [|split; [|split]]].
  - apply (proj1 (proj2
      (extract_hosting_override_chain (Some "On-prem core, hybrid later")))).
    by_running.
  - apply (proj1 (proj2 (proj2
      (extract_hosting_override_chain (Some "Deploy on Azure and AWS")))));
      by_running.
  - apply (proj1 (proj2 (proj2 (proj2
      (extract_hosting_override_chain (Some "Deploy on Azure"))))));
      by_running.
  - apply (proj1 (proj2 (proj2 (proj2 (proj2
      (extract_hosting_override_chain (Some "Keep it on prem")))))));
      try by_running.
    right. by_running.
  - apply (proj2 (proj2 (proj2 (proj2 (proj2
      (extract_hosting_override_chain (Some "Finance only")))))));
      by_running.
Defined.

(* ------------------------------------------------------------------ *)
(** ** The regular expression: one position *)

Section RegexPosition.

Local Open Scope string_scope.
Import Re.

Lemma digit_is_word (c : ascii) : is_digit c = true -> is_word c = true.
Proof. unfold is_word. now intros ->. Qed.

Lemma head_not_word_not_digit (post : string) :
  opt_word (head post) = false ->
  match post with
  | EmptyString => True
  | String c _ => is_digit c = false
  end.
Proof.
  destruct post as [|c post]; simpl; [trivial|].
  intros H. destruct (is_digit c) eqn:Hd; [|reflexivity].
  now rewrite (digit_is_word c Hd) in H.
Qed.

Lemma take_digits_sound (k : nat) (s d rest : string) :
  take_digits k s = Some (d, rest) ->
  s = d ++ rest /\ all_digits d = true /\ String.length d = k.
Proof.
  revert s d rest; induction k as [|k IH]; intros s d rest; simpl.
  - intros H. inversion H; subst. auto.
  - destruct s as [|c s]; [discriminate|].
    destruct (is_digit c) eqn:Hc; [|discriminate].
    destruct (take_digits k s) as [[d' rest']|] eqn:Ht; [|discriminate].
    intros H. inversion H; subst.
    destruct (IH _ _ _ Ht) as [-> [Hd Hl]].
    simpl. rewrite Hc, Hd, Hl. auto.
Qed.

Lemma take_digits_exact (d post : string) :
  all_digits d = true ->
  take_digits (String.length d) (d ++ post) = Some (d, post).
Proof.
  induction d as [|c d IH]; simpl; [reflexivity|].
  intros H. apply andb_true_iff in H. destruct H as [Hc Hd].
  now rewrite Hc, (IH Hd).
Qed.

Lemma take_digits_beyond (k : nat) (d post : string) :
  all_digits d = true -> opt_word (head post) = false ->
  (String.length d < k)%nat ->
  take_digits k (d ++ post) = None.
Proof.
  revert k; induction d as [|c d IH]; intros k Hd Hpost Hlt.
  - destruct k as [|k]; [lia|]. simpl.
    apply head_not_word_not_digit in Hpost.
    destruct post as [|c post]; [reflexivity | now rewrite Hpost].
  - destruct k as [|k]; [simpl in Hlt; lia|]. simpl in *.
    apply andb_true_iff in Hd. destruct Hd as [Hc Hd].
    rewrite Hc, (IH k Hd Hpost); [reflexivity | lia].
Qed.

Lemma last_of_digits (d : string) (x : option ascii) :
  all_digits d = true -> (d = EmptyString -> opt_word x = true) ->
  opt_word (last d x) = true.
Proof.
  revert x; induction d as [|c d IH]; intros x Hd Hx; simpl.
  - now apply Hx.
  - simpl in Hd. apply andb_true_iff in Hd. destruct Hd as [Hc Hd].
    apply IH; [assumption|]. intros _. simpl. now apply digit_is_word.
Qed.

Lemma group_sound (k : nat) (s d : string) :
  (1 <= k)%nat -> group_then_boundary k s = Some d ->
  exists post,
    s = d ++ post /\ all_digits d = true /\ String.length d = k /\
    opt_word (head post) = false.
Proof.
  unfold group_then_boundary. intros Hk.
  destruct (take_digits k s) as [[d' rest]|] eqn:Ht; [|discriminate].
  destruct (boundary (last d' None) (head rest)) eqn:Hb; [|discriminate].
  intros H. inversion H; subst d'.
  destruct (take_digits_sound _ _ _ _ Ht) as [Hs [Hd Hl]].
  exists rest. repeat split; try assumption.
  unfold boundary in Hb. rewrite last_of_digits in Hb; [|assumption|].
  - now destruct (opt_word (head rest)).
  - intros ->. simpl in Hl. lia.
Qed.

Lemma group_exact (k : nat) (d post : string) :
  all_digits d = true -> String.length d = k -> (1 <= k)%nat ->
  opt_word (head post) = false ->
  group_then_boundary k (d ++ post) = Some d.
Proof.
  intros Hd <- Hk Hpost. unfold group_then_boundary.
  rewrite (take_digits_exact d post Hd). unfold boundary.
  rewrite last_of_digits, Hpost; [reflexivity | assumption |].
  intros ->. simpl in Hk. lia.
Qed.

Lemma group_beyond (k : nat) (d post : string) :
  all_digits d = true -> opt_word (head post) = false ->
  (String.length d < k)%nat ->
  group_then_boundary k (d ++ post) = None.
Proof.
  intros Hd Hpost Hlt. unfold group_then_boundary.
  now rewrite take_digits_beyond.
Qed.

Lemma head_of_digits (d post : string) :
  all_digits d = true -> (1 <= String.length d)%nat ->
  opt_word (head (d ++ post)) = true.
Proof.
  destruct d as [|c d]; simpl; [lia|].
  intros H _. apply andb_true_iff in H. now apply digit_is_word.
Qed.

(** Every match at a position is a standalone number starting there. *)
Lemma match_here_sound (before : option ascii) (s d : string) :
  match_here before s = Some d ->
  exists post, s = d ++ post /\ standalone_from before EmptyString d post.
Proof.
  unfold match_here.
  destruct (boundary before (head s)) eqn:Hb; [|discriminate].
  intros H.
  assert (Hg : exists k, (3 <= k <= 6)%nat /\ group_then_boundary k s = Some d).
  { destruct (group_then_boundary 6 s) eqn:H6; simpl in H;
      [exists 6%nat; split; [lia | congruence]|].
    destruct (group_then_boundary 5 s) eqn:H5; simpl in H;
      [exists 5%nat; split; [lia | congruence]|].
    destruct (group_then_boundary 4 s) eqn:H4; simpl in H;
      [exists 4%nat; split; [lia | congruence]|].
    exists 3%nat. split; [lia | exact H]. }
  destruct Hg as [k [Hk Hg]].
  destruct (group_sound k s d ltac:(lia) Hg) as [post [Hs [Hd [Hl Hp]]]].
  exists post. split; [assumption|].
  unfold standalone_from. simpl. repeat split; try assumption; try lia.
  unfold boundary in Hb. subst s.
  rewrite head_of_digits in Hb; [|assumption|lia].
  now destruct (opt_word before).
Qed.

(** Every standalone number starting at a position is the match there. *)
Lemma match_here_complete (before : option ascii) (d post : string) :
  standalone_from before EmptyString d post ->
  match_here before (d ++ post) = Some d.
Proof.
  unfold standalone_from. simpl. intros [Hd [[Hlo Hhi] [Hb Hp]]].
  unfold match_here, boundary.
  rewrite Hb, head_of_digits; [|assumption|lia]. simpl.
  assert (Hlen : (String.length d = 3 \/ String.length d = 4 \/
                  String.length d = 5 \/ String.length d = 6)%nat) by lia.
  destruct Hlen as [H|[H|[H|H]]].
  - rewrite (group_beyond 6), (group_beyond 5), (group_beyond 4),
      (group_exact 3); auto; lia.
  - rewrite (group_beyond 6), (group_beyond 5), (group_exact 4); auto; lia.
  - rewrite (group_beyond 6), (group_exact 5); auto; lia.
  - rewrite (group_exact 6); auto; lia.
Qed.

End RegexPosition.

(* ------------------------------------------------------------------ *)
(** ** The regular expression: the scan *)

Section RegexScan.

Local Open Scope string_scope.
Import Re.

(** The head of the scan is the first standalone number, and the scan is
    empty exactly when there is none. *)
Lemma findall_from_first (s : string) (before : option ascii) :
  match findall_from before 0 s with
  | [] => no_standalone_from before s
  | d :: _ => first_standalone_from before s d
  end.
Proof.
  revert before; induction s as [|c s IH]; intros before.
  - simpl. intros pre d post Heq [_ [[Hlo _] _]].
    destruct pre; [|discriminate]. destruct d; [simpl in Hlo; lia|discriminate].
  - cbn [findall_from].
    destruct (match_here before (String c s)) as [d|] eqn:Hm.
    + destruct (match_here_sound _ _ _ Hm) as [post [Hs Hst]].
      exists EmptyString, post. repeat split; try assumption; try apply Hst.
      intros. simpl. lia.
    + assert (Hfront : forall d post,
                 String c s = d ++ post ->
                 ~ standalone_from before EmptyString d post).
      { intros d post Heq Hst. apply match_here_complete in Hst.
        rewrite <- Heq, Hm in Hst. discriminate. }
      specialize (IH (Some c)).
      destruct (findall_from (Some c) 0 s) as [|d ds].
      * intros pre d post Heq Hst. destruct pre as [|c' pre].
        -- now apply (Hfront d post).
        -- simpl in Heq. inversion Heq; subst c'.
           exact (IH pre d post H1 Hst).
      * destruct IH as [pre [post [Heq [Hst Hmin]]]].
        exists (String c pre), post. split; [simpl; now rewrite Heq|].
        split; [exact Hst|].
        intros pre' d' post' Heq' Hst'. destruct pre' as [|c' pre'].
        -- exfalso. now apply (Hfront d' post').
        -- simpl in Heq'. inversion Heq'; subst c'.
           simpl. apply le_n_S. exact (Hmin pre' d' post' H1 Hst').
Qed.

Lemma app_inv_same_length (a b x y : string) :
  a ++ x = b ++ y -> String.length a = String.length b -> a = b /\ x = y.
Proof.
  revert b; induction a as [|c a IH]; intros [|c' b]; simpl;
    try discriminate; intros Heq Hlen.
  - auto.
  - inversion Heq; subst. destruct (IH b H1) as [-> ->]; [lia | auto].
Qed.

Lemma digit_run_unique (d1 d2 post1 post2 : string) :
  all_digits d1 = true -> all_digits d2 = true ->
  opt_word (head post1) = false -> opt_word (head post2) = false ->
  d1 ++ post1 = d2 ++ post2 -> d1 = d2.
Proof.
  revert d2; induction d1 as [|c d1 IH]; intros [|c' d2]; simpl;
    intros H1 H2 Hp1 Hp2 Heq.
  - reflexivity.
  - subst post1. simpl in Hp1. apply andb_true_iff in H2.
    destruct H2 as [H2 _]. now rewrite (digit_is_word _ H2) in Hp1.
  - subst post2. simpl in Hp2. apply andb_true_iff in H1.
    destruct H1 as [H1 _]. now rewrite (digit_is_word _ H1) in Hp2.
  - apply andb_true_iff in H1, H2. inversion Heq; subst.
    f_equal. now apply IH.
Qed.

Lemma first_standalone_unique (before : option ascii) (t d1 d2 : string) :
  first_standalone_from before t d1 -> first_standalone_from before t d2 ->
  d1 = d2.
Proof.
  intros [pre1 [post1 [Heq1 [Hst1 Hmin1]]]] [pre2 [post2 [Heq2 [Hst2 Hmin2]]]].
  pose proof (Hmin1 _ _ _ Heq2 Hst2) as Hle1.
  pose proof (Hmin2 _ _ _ Heq1 Hst1) as Hle2.
  rewrite Heq1 in Heq2.
  destruct (app_inv_same_length _ _ _ _ Heq2 ltac:(lia)) as [_ Hrest].
  destruct Hst1 as [Hd1 [_ [_ Hp1]]]. destruct Hst2 as [Hd2 [_ [_ Hp2]]].
  now apply (digit_run_unique d1 d2 post1 post2).
Qed.

Lemma first_standalone_not_none (before : option ascii) (t d : string) :
  first_standalone_from before t d -> ~ no_standalone_from before t.
Proof.
  intros [pre [post [Heq [Hst _]]]] Hno. now apply (Hno pre d post).
Qed.

(** Every capture is a non-empty string of digits: [int] is only applied to
    such strings. *)
Lemma findall_from_digits (s : string) (before : option ascii) (skip : nat) :
  Forall (fun d => all_digits d = true /\ (3 <= String.length d <= 6)%nat)
    (findall_from before skip s).
Proof.
  revert before skip; induction s as [|c s IH]; intros before skip.
  - constructor.
  - cbn [findall_from]. destruct skip as [|k]; [|apply IH].
    destruct (match_here before (String c s)) as [d|] eqn:Hm; [|apply IH].
    constructor; [|apply IH].
    destruct (match_here_sound _ _ _ Hm) as [post [_ [Hd [Hl _]]]]. auto.
Qed.

(** A number preceded by digit-free text that does not end in a word
    character is the first capture. *)
Lemma findall_from_after_no_digits (pre d post : string)
    (before : option ascii) :
  no_digits pre = true ->
  standalone_from before pre d post ->
  exists rest, findall_from before 0 (pre ++ d ++ post) = d :: rest.
Proof.
  revert before; induction pre as [|c pre IH]; intros before Hnd Hst.
  - simpl. pose proof (match_here_complete _ _ _ Hst) as Hm.
    destruct Hst as [Hd [[Hlo _] _]].
    destruct d as [|c d]; [simpl in Hlo; lia|].
    simpl in *. rewrite Hm. eauto.
  - simpl in Hnd. apply andb_true_iff in Hnd. destruct Hnd as [Hc Hnd].
    apply negb_true_iff in Hc.
    assert (Hm : match_here before (String c (pre ++ d ++ post)) = None).
    { destruct (match_here before (String c (pre ++ d ++ post))) as [d'|]
        eqn:Hm; [|reflexivity].
      destruct (match_here_sound _ _ _ Hm) as [post' [Heq Hst']].
      destruct Hst' as [Hd' [[Hlo' _] _]].
      destruct d' as [|c' d']; [simpl in Hlo'; lia|].
      simpl in Heq, Hd'. inversion Heq; subst c'.
      rewrite Hc in Hd'. discriminate. }
    change (String c pre ++ d ++ post) with (String c (pre ++ d ++ post)).
    cbn [findall_from]. rewrite Hm.
    apply IH; [assumption | exact Hst].
Qed.

End RegexScan.

(* ------------------------------------------------------------------ *)
(** ** Lowercasing does not change the captured numbers *)

Section LowerDigits.

Import Re.

Ltac by_cases_on c :=
  destruct c as [[] [] [] [] [] [] [] []]; try reflexivity.

Lemma is_digit_lower (c : ascii) : is_digit (lower_char c) = is_digit c.
Proof. by_cases_on c. Qed.

Lemma is_word_lower (c : ascii) : is_word (lower_char c) = is_word c.
Proof. by_cases_on c. Qed.

Lemma lower_char_digit (c : ascii) : is_digit c = true -> lower_char c = c.
Proof. by_cases_on c; discriminate. Qed.

Lemma opt_word_head_lower (s : string) :
  opt_word (head (lower s)) = opt_word (head s).
Proof. destruct s as [|c s]; simpl; [reflexivity | apply is_word_lower]. Qed.

Lemma take_digits_lower (k : nat) (s : string) :
  take_digits k (lower s)
  = match take_digits k s with
    | Some (d, rest) => Some (d, lower rest)
    | None => None
    end.
Proof.
  revert s; induction k as [|k IH]; intros s; simpl; [reflexivity|].
  destruct s as [|c s]; simpl; [reflexivity|].
  rewrite is_digit_lower. destruct (is_digit c) eqn:Hc; [|reflexivity].
  rewrite IH, (lower_char_digit c Hc).
  now destruct (take_digits k s) as [[d rest]|].
Qed.

Lemma group_lower (k : nat) (s : string) :
  group_then_boundary k (lower s) = group_then_boundary k s.
Proof.
  unfold group_then_boundary. rewrite take_digits_lower.
  destruct (take_digits k s) as [[d rest]|]; [|reflexivity].
  unfold boundary. now rewrite opt_word_head_lower.
Qed.

Lemma match_here_lower (b b' : option ascii) (s : string) :
  opt_word b' = opt_word b ->
  match_here b' (lower s) = match_here b s.
Proof.
  intros Hb. unfold match_here, boundary.
  now rewrite Hb, opt_word_head_lower, !group_lower.
Qed.

Lemma findall_from_lower (s : string) (b b' : option ascii) (skip : nat) :
  opt_word b' = opt_word b ->
  findall_from b' skip (lower s) = findall_from b skip s.
Proof.
  revert b b' skip; induction s as [|c s IH]; intros b b' skip Hb;
    [reflexivity|].
  assert (Hc : opt_word (Some (lower_char c)) = opt_word (Some c))
    by apply is_word_lower.
  change (lower (String c s)) with (String (lower_char c) (lower s)).
  cbn [findall_from]. destruct skip as [|k]; [|now apply IH].
  change (String (lower_char c) (lower s)) with (lower (String c s)).
  rewrite (match_here_lower b b' _ Hb).
  destruct (match_here b (String c s)); [f_equal|]; now apply IH.
Qed.

Lemma findall_lower (s : string) : findall (lower s) = findall s.
Proof. now apply findall_from_lower. Qed.

End LowerDigits.

(* ------------------------------------------------------------------ *)
(** ** [extract]: the users hint *)

Section UsersHint.

Local Open Scope string_scope.
Local Open Scope Z_scope.

Lemma digit_value_range (c : ascii) :
  is_digit c = true -> 0 <= digit_value c <= 9.
Proof.
  unfold is_digit, in_range, digit_value. intros H.
  apply andb_true_iff in H. destruct H as [Hlo Hhi].
  apply N.leb_le in Hlo, Hhi. lia.
Qed.

Lemma int_from_nonneg (s : string) (acc : Z) :
  all_digits s = true -> 0 <= acc -> 0 <= int_from acc s.
Proof.
  revert acc; induction s as [|c s IH]; intros acc Hd Hacc; simpl.
  - assumption.
  - simpl in Hd. apply andb_true_iff in Hd. destruct Hd as [Hc Hd].
    apply IH; [assumption|]. pose proof (digit_value_range c Hc). lia.
Qed.

Lemma users_hint_lower (s : string) : users_hint (lower s) = users_hint s.
Proof. unfold users_hint. now rewrite findall_lower. Qed.

Lemma users_hint_nonneg (t : string) : 0 <= users_hint t.
Proof.
  unfold users_hint, Re.findall.
  pose proof (findall_from_digits t None 0) as H.
  destruct (Re.findall_from None 0 t) as [|d ds]; [lia|].
  inversion H as [|? ? [Hd _] _]; subst.
  apply int_from_nonneg; [assumption | lia].
Qed.

Lemma users_hint_first (t d : string) :
  first_standalone t d -> users_hint t = int d.
Proof.
  unfold users_hint, Re.findall, first_standalone. intros Hfirst.
  pose proof (findall_from_first t None) as H.
  destruct (Re.findall_from None 0 t) as [|d' ds].
  - now apply first_standalone_not_none in Hfirst.
  - now rewrite (first_standalone_unique None t d' d H Hfirst).
Qed.

Lemma users_hint_none (t : string) :
  no_standalone t -> users_hint t = 1000.
Proof.
  unfold users_hint, Re.findall, no_standalone. intros Hno.
  pose proof (findall_from_first t None) as H.
  destruct (Re.findall_from None 0 t) as [|d' ds]; [reflexivity|].
  now apply first_standalone_not_none in H.
Qed.

Lemma standalone_decided (t : string) :
  (exists d, first_standalone t d) \/ no_standalone t.
Proof.
  unfold first_standalone, no_standalone.
  pose proof (findall_from_first t None) as H.
  destruct (Re.findall_from None 0 t) as [|d ds]; eauto.
Qed.

End UsersHint.

(* ------------------------------------------------------------------ *)
(** ** The pattern over any alphabet *)

Section AnyAlphabet.

Context {char : Type}.
Variable is_digit : char -> bool.
Variable is_word : char -> bool.
Variable digit_value : char -> Z.

(** What the statements need of the classes: a digit is a word character,
    and its value is a decimal digit. *)
Hypothesis digit_word : forall c, is_digit c = true -> is_word c = true.
Hypothesis digit_range :
  forall c, is_digit c = true -> (0 <= digit_value c <= 9)%Z.

Local Abbreviation opt_word := (Uni.opt_word is_word).
Local Abbreviation boundary := (Uni.boundary is_word).
Local Abbreviation take_digits := (Uni.take_digits is_digit).
Local Abbreviation group_then_boundary := (Uni.group_then_boundary is_digit is_word).
Local Abbreviation match_here := (Uni.match_here is_digit is_word).
Local Abbreviation findall_from := (Uni.findall_from is_digit is_word).
Local Abbreviation all_digits := (Uni.all_digits is_digit).
Local Abbreviation no_digits := (Uni.no_digits is_digit).
Local Abbreviation standalone_from := (Uni.standalone_from is_digit is_word).
Local Abbreviation first_standalone_from :=
  (Uni.first_standalone_from is_digit is_word).
Local Abbreviation no_standalone_from := (Uni.no_standalone_from is_digit is_word).

Lemma uni_head_not_digit (post : list char) :
  opt_word (Uni.head post) = false ->
  match post with
  | [] => True
  | c :: _ => is_digit c = false
  end.
Proof.
  destruct post as [|c post]; simpl; [trivial|].
  intros H. destruct (is_digit c) eqn:Hd; [|reflexivity].
  now rewrite (digit_word c Hd) in H.
Qed.

Lemma uni_take_digits_sound (k : nat) (s d rest : list char) :
  take_digits k s = Some (d, rest) ->
  s = d ++ rest /\ all_digits d = true /\ List.length d = k.
Proof.
  revert s d rest; induction k as [|k IH]; intros s d rest; simpl.
  - intros H. inversion H; subst. auto.
  - destruct s as [|c s]; [discriminate|].
    destruct (is_digit c) eqn:Hc; [|discriminate].
    destruct (take_digits k s) as [[d' rest']|] eqn:Ht; [|discriminate].
    intros H. inversion H; subst.
    destruct (IH _ _ _ Ht) as [-> [Hd Hl]].
    unfold Uni.all_digits in *. simpl. rewrite Hc, Hd, Hl. auto.
Qed.

Lemma uni_take_digits_exact (d post : list char) :
  all_digits d = true ->
  take_digits (List.length d) (d ++ post) = Some (d, post).
Proof.
  unfold Uni.all_digits.
  induction d as [|c d IH]; simpl; [reflexivity|].
  intros H. apply andb_true_iff in H. destruct H as [Hc Hd].
  now rewrite Hc, (IH Hd).
Qed.

Lemma uni_take_digits_beyond (k : nat) (d post : list char) :
  all_digits d = true -> opt_word (Uni.head post) = false ->
  (List.length d < k)%nat ->
  take_digits k (d ++ post) = None.
Proof.
  unfold Uni.all_digits.
  revert k; induction d as [|c d IH]; intros k Hd Hpost Hlt.
  - destruct k as [|k]; [lia|]. simpl.
    apply uni_head_not_digit in Hpost.
    destruct post as [|c post]; [reflexivity | now rewrite Hpost].
  - destruct k as [|k]; [simpl in Hlt; lia|]. simpl in *.
    apply andb_true_iff in Hd. destruct Hd as [Hc Hd].
    rewrite Hc, (IH k Hd Hpost); [reflexivity | lia].
Qed.

Lemma uni_last_of_digits (d : list char) (x : option char) :
  all_digits d = true -> (d = [] -> opt_word x = true) ->
  opt_word (Uni.last d x) = true.
Proof.
  unfold Uni.all_digits.
  revert x; induction d as [|c d IH]; intros x Hd Hx; simpl.
  - now apply Hx.
  - simpl in Hd. apply andb_true_iff in Hd. destruct Hd as [Hc Hd].
    apply IH; [assumption|]. intros _. simpl. now apply digit_word.
Qed.

Lemma uni_group_sound (k : nat) (s d : list char) :
  (1 <= k)%nat -> group_then_boundary k s = Some d ->
  exists post,
    s = d ++ post /\ all_digits d = true /\ List.length d = k /\
    opt_word (Uni.head post) = false.
Proof.
  unfold Uni.group_then_boundary. intros Hk.
  destruct (take_digits k s) as [[d' rest]|] eqn:Ht; [|discriminate].
  destruct (boundary (Uni.last d' None) (Uni.head rest)) eqn:Hb;
    [|discriminate].
  intros H. inversion H; subst d'.
  destruct (uni_take_digits_sound _ _ _ _ Ht) as [Hs [Hd Hl]].
  exists rest. repeat split; try assumption.
  unfold Uni.boundary in Hb. rewrite uni_last_of_digits in Hb; [|assumption|].
  - now destruct (opt_word (Uni.head rest)).
  - intros ->. simpl in Hl. lia.
Qed.

Lemma uni_group_exact (k : nat) (d post : list char) :
  all_digits d = true -> List.length d = k -> (1 <= k)%nat ->
  opt_word (Uni.head post) = false ->
  group_then_boundary k (d ++ post) = Some d.
Proof.
  intros Hd <- Hk Hpost. unfold Uni.group_then_boundary.
  rewrite (uni_take_digits_exact d post Hd). unfold Uni.boundary.
  rewrite uni_last_of_digits, Hpost; [reflexivity | assumption |].
  intros ->. simpl in Hk. lia.
Qed.

Lemma uni_group_beyond (k : nat) (d post : list char) :
  all_digits d = true -> opt_word (Uni.head post) = false ->
  (List.length d < k)%nat ->
  group_then_boundary k (d ++ post) = None.
Proof.
  intros Hd Hpost Hlt. unfold Uni.group_then_boundary.
  now rewrite uni_take_digits_beyond.
Qed.

Lemma uni_head_of_digits (d post : list char) :
  all_digits d = true -> (1 <= List.length d)%nat ->
  opt_word (Uni.head (d ++ post)) = true.
Proof.
  unfold Uni.all_digits. destruct d as [|c d]; simpl; [lia|].
  intros H _. apply andb_true_iff in H. now apply digit_word.
Qed.

Lemma uni_match_here_sound (before : option char) (s d : list char) :
  match_here before s = Some d ->
  exists post, s = d ++ post /\ standalone_from before [] d post.
Proof.
  unfold Uni.match_here.
  destruct (boundary before (Uni.head s)) eqn:Hb; [|discriminate].
  intros H.
  assert (Hg : exists k, (3 <= k <= 6)%nat /\ group_then_boundary k s = Some d).
  { destruct (group_then_boundary 6 s) eqn:H6; simpl in H;
      [exists 6%nat; split; [lia | congruence]|].
    destruct (group_then_boundary 5 s) eqn:H5; simpl in H;
      [exists 5%nat; split; [lia | congruence]|].
    destruct (group_then_boundary 4 s) eqn:H4; simpl in H;
      [exists 4%nat; split; [lia | congruence]|].
    exists 3%nat. split; [lia | exact H]. }
  destruct Hg as [k [Hk Hg]].
  destruct (uni_group_sound k s d ltac:(lia) Hg) as [post [Hs [Hd [Hl Hp]]]].
  exists post. split; [assumption|].
  unfold Uni.standalone_from. simpl. repeat split; try assumption; try lia.
  unfold Uni.boundary in Hb. subst s.
  rewrite uni_head_of_digits in Hb; [|assumption|lia].
  now destruct (opt_word before).
Qed.

Lemma uni_match_here_complete (before : option char) (d post : list char) :
  standalone_from before [] d post ->
  match_here before (d ++ post) = Some d.
Proof.
  unfold Uni.standalone_from. simpl. intros [Hd [[Hlo Hhi] [Hb Hp]]].
  unfold Uni.match_here, Uni.boundary.
  rewrite Hb, uni_head_of_digits; [|assumption|lia]. simpl.
  assert (Hlen : (List.length d = 3 \/ List.length d = 4 \/
                  List.length d = 5 \/ List.length d = 6)%nat) by lia.
  destruct Hlen as [H|[H|[H|H]]].
  - rewrite (uni_group_beyond 6), (uni_group_beyond 5), (uni_group_beyond 4),
      (uni_group_exact 3); auto; lia.
  - rewrite (uni_group_beyond 6), (uni_group_beyond 5), (uni_group_exact 4);
      auto; lia.
  - rewrite (uni_group_beyond 6), (uni_group_exact 5); auto; lia.
  - rewrite (uni_group_exact 6); auto; lia.
Qed.

(** The head of the scan is the first standalone number, and the scan is
    empty exactly when there is none. *)
Lemma uni_findall_from_first (s : list char) (before : option char) :
  match findall_from before 0 s with
  | [] => no_standalone_from before s
  | d :: _ => first_standalone_from before s d
  end.
Proof.
  revert before; induction s as [|c s IH]; intros before.
  - simpl. intros pre d post Heq [_ [[Hlo _] _]].
    destruct pre; [|discriminate]. destruct d; [simpl in Hlo; lia|discriminate].
  - cbn [Uni.findall_from].
    destruct (match_here before (c :: s)) as [d|] eqn:Hm.
    + destruct (uni_match_here_sound _ _ _ Hm) as [post [Hs Hst]].
      exists [], post. repeat split; try assumption; try apply Hst.
      intros. simpl. lia.
    + assert (Hfront : forall d post,
                 c :: s = d ++ post ->
                 ~ standalone_from before [] d post).
      { intros d post Heq Hst. apply uni_match_here_complete in Hst.
        rewrite <- Heq, Hm in Hst. discriminate. }
      specialize (IH (Some c)).
      destruct (findall_from (Some c) 0 s) as [|d ds].
      * intros pre d post Heq Hst. destruct pre as [|c' pre].
        -- now apply (Hfront d post).
        -- simpl in Heq. inversion Heq; subst c'.
           exact (IH pre d post H1 Hst).
      * destruct IH as [pre [post [Heq [Hst Hmin]]]].
        exists (c :: pre), post. split; [simpl; now rewrite Heq|].
        split; [exact Hst|].
        intros pre' d' post' Heq' Hst'. destruct pre' as [|c' pre'].
        -- exfalso. now apply (Hfront d' post').
        -- simpl in Heq'. inversion Heq'; subst c'.
           simpl. apply le_n_S. exact (Hmin pre' d' post' H1 Hst').
Qed.

Lemma uni_app_inv_same_length (a b x y : list char) :
  a ++ x = b ++ y -> List.length a = List.length b -> a = b /\ x = y.
Proof.
  revert b; induction a as [|c a IH]; intros [|c' b]; simpl;
    try discriminate; intros Heq Hlen.
  - auto.
  - inversion Heq; subst. destruct (IH b H1) as [-> ->]; [lia | auto].
Qed.

Lemma uni_digit_run_unique (d1 d2 post1 post2 : list char) :
  all_digits d1 = true -> all_digits d2 = true ->
  opt_word (Uni.head post1) = false -> opt_word (Uni.head post2) = false ->
  d1 ++ post1 = d2 ++ post2 -> d1 = d2.
Proof.
  unfold Uni.all_digits.
  revert d2; induction d1 as [|c d1 IH]; intros [|c' d2]; simpl;
    intros H1 H2 Hp1 Hp2 Heq.
  - reflexivity.
  - subst post1. simpl in Hp1. apply andb_true_iff in H2.
    destruct H2 as [H2 _]. now rewrite (digit_word _ H2) in Hp1.
  - subst post2. simpl in Hp2. apply andb_true_iff in H1.
    destruct H1 as [H1 _]. now rewrite (digit_word _ H1) in Hp2.
  - apply andb_true_iff in H1, H2. inversion Heq; subst.
    f_equal. now apply IH.
Qed.

Lemma uni_first_standalone_unique
    (before : option char) (t d1 d2 : list char) :
  first_standalone_from before t d1 -> first_standalone_from before t d2 ->
  d1 = d2.
Proof.
  intros [pre1 [post1 [Heq1 [Hst1 Hmin1]]]] [pre2 [post2 [Heq2 [Hst2 Hmin2]]]].
  pose proof (Hmin1 _ _ _ Heq2 Hst2) as Hle1.
  pose proof (Hmin2 _ _ _ Heq1 Hst1) as Hle2.
  rewrite Heq1 in Heq2.
  destruct (uni_app_inv_same_length _ _ _ _ Heq2 ltac:(lia)) as [_ Hrest].
  destruct Hst1 as [Hd1 [_ [_ Hp1]]]. destruct Hst2 as [Hd2 [_ [_ Hp2]]].
  now apply (uni_digit_run_unique d1 d2 post1 post2).
Qed.

Lemma uni_first_standalone_not_none
    (before : option char) (t d : list char) :
  first_standalone_from before t d -> ~ no_standalone_from before t.
Proof.
  intros [pre [post [Heq [Hst _]]]] Hno. now apply (Hno pre d post).
Qed.

Lemma uni_findall_from_digits
    (s : list char) (before : option char) (skip : nat) :
  Forall (fun d => all_digits d = true /\ (3 <= List.length d <= 6)%nat)
    (findall_from before skip s).
Proof.
  revert before skip; induction s as [|c s IH]; intros before skip.
  - constructor.
  - cbn [Uni.findall_from]. destruct skip as [|k]; [|apply IH].
    destruct (match_here before (c :: s)) as [d|] eqn:Hm; [|apply IH].
    constructor; [|apply IH].
    destruct (uni_match_here_sound _ _ _ Hm) as [post [_ [Hd [Hl _]]]]. auto.
Qed.

Lemma uni_findall_from_after_no_digits (pre d post : list char)
    (before : option char) :
  no_digits pre = true ->
  standalone_from before pre d post ->
  exists rest, findall_from before 0 (pre ++ d ++ post) = d :: rest.
Proof.
  unfold Uni.no_digits.
  revert before; induction pre as [|c pre IH]; intros before Hnd Hst.
  - simpl. pose proof (uni_match_here_complete _ _ _ Hst) as Hm.
    destruct Hst as [Hd [[Hlo _] _]].
    destruct d as [|c d]; [simpl in Hlo; lia|].
    simpl in *. rewrite Hm. eauto.
  - simpl in Hnd. apply andb_true_iff in Hnd. destruct Hnd as [Hc Hnd].
    apply negb_true_iff in Hc.
    assert (Hm : match_here before (c :: pre ++ d ++ post) = None).
    { destruct (match_here before (c :: pre ++ d ++ post)) as [d'|]
        eqn:Hm; [|reflexivity].
      destruct (uni_match_here_sound _ _ _ Hm) as [post' [Heq Hst']].
      destruct Hst' as [Hd' [[Hlo' _] _]].
      destruct d' as [|c' d']; [simpl in Hlo'; lia|].
      unfold Uni.all_digits in Hd'.
      simpl in Heq, Hd'. inversion Heq; subst c'.
      rewrite Hc in Hd'. discriminate. }
    change ((c :: pre) ++ d ++ post) with (c :: pre ++ d ++ post).
    cbn [Uni.findall_from]. rewrite Hm.
    apply IH; [assumption | exact Hst].
Qed.

Local Open Scope Z_scope.

Lemma uni_int_from_bounds (s : list char) (acc : Z) :
  all_digits s = true -> 0 <= acc ->
  0 <= Uni.int_from digit_value acc s
    < (acc + 1) * 10 ^ Z.of_nat (List.length s).
Proof.
  unfold Uni.all_digits.
  revert acc; induction s as [|c s IH]; intros acc Hd Hacc.
  - simpl. lia.
  - simpl in Hd. apply andb_true_iff in Hd. destruct Hd as [Hc Hd].
    pose proof (digit_range c Hc) as Hv.
    cbn [Uni.int_from List.length].
    specialize (IH (acc * 10 + digit_value c) Hd ltac:(lia)).
    rewrite Nat2Z.inj_succ, Z.pow_succ_r by lia.
    assert (Hp : 0 < 10 ^ Z.of_nat (List.length s))
      by (apply Z.pow_pos_nonneg; lia).
    nia.
Qed.

Lemma uni_users_of_range (t : list char) :
  0 <= Uni.users_of is_digit is_word digit_value t <= 999999.
Proof.
  unfold Uni.users_of, Uni.findall.
  pose proof (uni_findall_from_digits t None 0) as H.
  destruct (findall_from None 0 t) as [|d ds]; [lia|].
  inversion H as [|? ? [Hd [_ Hlen]] _]; subst.
  pose proof (uni_int_from_bounds d 0 Hd ltac:(lia)) as Hup.
  fold (Uni.int digit_value d) in Hup.
  assert (Hpow : 10 ^ Z.of_nat (List.length d) <= 10 ^ 6)
    by (apply Z.pow_le_mono_r; lia).
  lia.
Qed.

Lemma uni_users_of_first (t d : list char) :
  Uni.first_standalone is_digit is_word t d ->
  Uni.users_of is_digit is_word digit_value t = Uni.int digit_value d.
Proof.
  unfold Uni.users_of, Uni.findall, Uni.first_standalone. intros Hfirst.
  pose proof (uni_findall_from_first t None) as H.
  destruct (findall_from None 0 t) as [|d' ds].
  - now apply uni_first_standalone_not_none in Hfirst.
  - now rewrite (uni_first_standalone_unique None t d' d H Hfirst).
Qed.

Lemma uni_users_of_none (t : list char) :
  Uni.no_standalone is_digit is_word t ->
  Uni.users_of is_digit is_word digit_value t = 1000.
Proof.
  unfold Uni.users_of, Uni.findall, Uni.no_standalone. intros Hno.
  pose proof (uni_findall_from_first t None) as H.
  destruct (findall_from None 0 t) as [|d' ds]; [reflexivity|].
  now apply uni_first_standalone_not_none in H.
Qed.

Lemma uni_standalone_decided (t : list char) :
  (exists d, Uni.first_standalone is_digit is_word t d) \/
  Uni.no_standalone is_digit is_word t.
Proof.
  unfold Uni.first_standalone, Uni.no_standalone.
  pose proof (uni_findall_from_first t None) as H.
  destruct (findall_from None 0 t) as [|d ds]; eauto.
Qed.

End AnyAlphabet.

(* ------------------------------------------------------------------ *)
(** ** The ASCII pattern is an instance *)

Section AsciiInstance.

Local Abbreviation chars := list_ascii_of_string.

Lemma chars_append (a b : string) :
  chars (a ++ b)%string = chars a ++ chars b.
Proof. induction a as [|c a IH]; simpl; [reflexivity | now rewrite IH]. Qed.

Lemma chars_length (s : string) : List.length (chars s) = String.length s.
Proof. induction s as [|c s IH]; simpl; [reflexivity | now rewrite IH]. Qed.

Lemma chars_head (s : string) : Uni.head (chars s) = Re.head s.
Proof. now destruct s. Qed.

Lemma chars_last (s : string) (x : option ascii) :
  Uni.last (chars s) x = Re.last s x.
Proof. revert x; induction s as [|c s IH]; intros x; simpl; auto. Qed.

Lemma chars_take_digits (k : nat) (s : string) :
  Uni.take_digits is_digit k (chars s)
  = match Re.take_digits k s with
    | Some (d, rest) => Some (chars d, chars rest)
    | None => None
    end.
Proof.
  revert s; induction k as [|k IH]; intros s; simpl; [reflexivity|].
  destruct s as [|c s]; simpl; [reflexivity|].
  destruct (is_digit c); [|reflexivity]. rewrite IH.
  now destruct (Re.take_digits k s) as [[d rest]|].
Qed.

Lemma chars_group (k : nat) (s : string) :
  Uni.group_then_boundary is_digit is_word k (chars s)
  = option_map chars (Re.group_then_boundary k s).
Proof.
  unfold Uni.group_then_boundary, Re.group_then_boundary.
  rewrite chars_take_digits.
  destruct (Re.take_digits k s) as [[d rest]|]; [|reflexivity].
  rewrite chars_last, chars_head.
  change (Uni.boundary is_word) with Re.boundary.
  now destruct (Re.boundary (Re.last d None) (Re.head rest)).
Qed.

Lemma chars_match_here (before : option ascii) (s : string) :
  Uni.match_here is_digit is_word before (chars s)
  = option_map chars (Re.match_here before s).
Proof.
  unfold Uni.match_here, Re.match_here. rewrite chars_head, !chars_group.
  change (Uni.boundary is_word) with Re.boundary.
  destruct (Re.boundary before (Re.head s)); [|reflexivity].
  destruct (Re.group_then_boundary 6 s); [reflexivity|].
  destruct (Re.group_then_boundary 5 s); [reflexivity|].
  destruct (Re.group_then_boundary 4 s); [reflexivity|].
  now destruct (Re.group_then_boundary 3 s).
Qed.

Lemma chars_findall_from (s : string) (before : option ascii) (skip : nat) :
  Uni.findall_from is_digit is_word before skip (chars s)
  = map chars (Re.findall_from before skip s).
Proof.
  revert before skip; induction s as [|c s IH]; intros before skip;
    [reflexivity|].
  change (chars (String c s)) with (c :: chars s).
  cbn [Uni.findall_from Re.findall_from].
  destruct skip as [|k]; [|apply IH].
  change (c :: chars s) with (chars (String c s)).
  rewrite chars_match_here.
  destruct (Re.match_here before (String c s)) as [d|]; simpl;
    [|apply IH].
  now rewrite chars_length, IH.
Qed.

Lemma chars_int_from (s : string) (acc : Z) :
  Uni.int_from digit_value acc (chars s) = int_from acc s.
Proof. revert acc; induction s as [|c s IH]; intros acc; simpl; auto. Qed.

(** [users_hint] is [Uni.users_of] for the ASCII classes. *)
Lemma users_hint_instance (t : string) :
  users_hint t = Uni.users_of is_digit is_word digit_value (chars t).
Proof.
  unfold users_hint, Uni.users_of, Uni.findall, Re.findall.
  rewrite chars_findall_from.
  destruct (Re.findall_from None 0 t) as [|d ds]; [reflexivity|].
  simpl. unfold Uni.int, int. now rewrite chars_int_from.
Qed.

End AsciiInstance.

(* ------------------------------------------------------------------ *)
(** ** ASCII characters inside any alphabet *)

Section AsciiInside.

Context {char : Type}.
Variable is_digit' : char -> bool.
Variable is_word' : char -> bool.
Variable digit_value' : char -> Z.
Variable of_ascii : ascii -> char.

Hypothesis digit_word : forall c, is_digit' c = true -> is_word' c = true.
Hypothesis digit_range :
  forall c, is_digit' c = true -> (0 <= digit_value' c <= 9)%Z.

(** On the ASCII characters the classes are the ASCII ones. *)
Hypothesis ascii_classes :
  forall c,
    is_ascii_char c = true ->
    is_digit' (of_ascii c) = is_digit c /\
    is_word' (of_ascii c) = is_word c /\
    (is_digit c = true -> digit_value' (of_ascii c) = digit_value c).

Lemma uni_users_2500 (pre post : list char) :
  Uni.no_digits is_digit' pre = true ->
  Uni.opt_word is_word' (Uni.last pre None) = false ->
  Uni.users_of is_digit' is_word' digit_value'
    (pre ++ map of_ascii (list_ascii_of_string "2500 employees") ++ post)
  = 2500%Z.
Proof.
  intros Hnd Hlast.
  set (d := map of_ascii (list_ascii_of_string "2500")).
  set (rest := map of_ascii (list_ascii_of_string " employees") ++ post).
  assert (Hclass : forall c,
             is_ascii_char c = true -> is_digit c = true ->
             is_digit' (of_ascii c) = true /\
             digit_value' (of_ascii c) = digit_value c).
  { intros c Ha Hd. destruct (ascii_classes c Ha) as [H1 [_ H3]].
    split; [now rewrite H1 | now apply H3]. }
  assert (H2 := Hclass "2"%char eq_refl eq_refl).
  assert (H5 := Hclass "5"%char eq_refl eq_refl).
  assert (H0 := Hclass "0"%char eq_refl eq_refl).
  destruct H2 as [H2 V2]. destruct H5 as [H5 V5]. destruct H0 as [H0 V0].
  assert (Hsp : is_word' (of_ascii " "%char) = false).
  { destruct (ascii_classes " "%char eq_refl) as [_ [Hw _]].
    now rewrite Hw. }
  assert (Hst : Uni.standalone_from is_digit' is_word' None pre d rest).
  { unfold Uni.standalone_from, Uni.all_digits, d, rest. simpl.
    rewrite H2, H5, H0. repeat split; try lia; assumption. }
  destruct (uni_findall_from_after_no_digits is_digit' is_word' digit_word
              pre d rest None Hnd Hst) as [tail Htail].
  unfold Uni.users_of, Uni.findall.
  change (map of_ascii (list_ascii_of_string "2500 employees") ++ post)
    with (d ++ rest).
  rewrite Htail. unfold d, Uni.int. simpl. rewrite V2, V5, V0.
  reflexivity.
Qed.

End AsciiInside.

(** C3, as stated: [users] is not always positive (the capture "000" is read
    as 0), and a text containing "2500 employees" need not give 2500 (the
    digits may be part of a longer number). *)
Lemma users_positive_counterexample :
  ~ (forall text : option string, (0 < users (extract text))%Z) /\
  ~ (forall text : option string,
        occurs_in "2500 employees" (text_or_empty text) ->
        users (extract text) = 2500%Z).
Proof.
  split; intros H.
  - specialize (H (Some "000")). vm_compute in H. discriminate H.
  - specialize (H (Some "12500 employees")).
    assert (Hu : users (extract (Some "12500 employees")) = 12500%Z)
      by (vm_compute; reflexivity).
    rewrite Hu in H. discriminate H. by_running.
Qed.

(** C3, amended. For every input text, [users] is a non-negative integer:
    it is the integer value of the first standalone run of 3 to 6 digits of
    the lowercased text (delimited on both sides by a non-word character or
    an end of the text), and 1000 when the lowercased text has no such run;
    one of the two cases always applies.  In particular, when
    "2500 employees" follows text that has no digit and does not end in a
    word character, [users] is 2500.
    The first part states this of lines 107 and 108 for every alphabet with
    its digit and word classes, provided a digit is a word character with a
    value from 0 to 9 (for Python: the code points and the classes of the
    Unicode database).  The second part states it of [extract] on ASCII
    text, where the profile is the ASCII instance and lowercasing changes
    neither digits nor word characters, so that the runs are those of the
    text itself. *)
Theorem extract_users :
  (forall (char : Type) (is_digit' is_word' : char -> bool)
          (digit_value' : char -> Z),
      (forall c, is_digit' c = true -> is_word' c = true) ->
      (forall c, is_digit' c = true -> (0 <= digit_value' c <= 9)%Z) ->
      forall t : list char,
        let u := Uni.users_of is_digit' is_word' digit_value' t in
        (0 <= u)%Z /\
        (forall d, Uni.first_standalone is_digit' is_word' t d ->
                   u = Uni.int digit_value' d) /\
        (Uni.no_standalone is_digit' is_word' t -> u = 1000%Z) /\
        ((exists d, Uni.first_standalone is_digit' is_word' t d) \/
         Uni.no_standalone is_digit' is_word' t) /\
        (forall of_ascii : ascii -> char,
            (forall c,
                is_ascii_char c = true ->
                is_digit' (of_ascii c) = is_digit c /\
                is_word' (of_ascii c) = is_word c /\
                (is_digit c = true ->
                 digit_value' (of_ascii c) = digit_value c)) ->
            forall pre post : list char,
              t = pre
                  ++ map of_ascii (list_ascii_of_string "2500 employees")
                  ++ post ->
              Uni.no_digits is_digit' pre = true ->
              Uni.opt_word is_word' (Uni.last pre None) = false ->
              u = 2500%Z)) /\
  (forall text : option string,
      is_ascii_text (text_or_empty text) = true ->
      let t := text_or_empty text in
      let u := users (extract text) in
      u = Uni.users_of is_digit is_word digit_value
            (list_ascii_of_string (lower t)) /\
      (0 <= u)%Z /\
      (forall d, first_standalone t d -> u = int d) /\
      (no_standalone t -> u = 1000%Z) /\
      ((exists d, first_standalone t d) \/ no_standalone t) /\
      (forall pre post : string,
          t = (pre ++ "2500 employees" ++ post)%string ->
          no_digits pre = true ->
          Re.opt_word (Re.last pre None) = false ->
          u = 2500%Z)).
Proof.
  split.
  - intros char is_digit' is_word' digit_value' Hword Hrange t u. unfold u.
    split; [apply (uni_users_of_range _ _ _ Hword Hrange t)|].
    split; [apply (uni_users_of_first _ _ _ Hword)|].
    split; [apply (uni_users_of_none _ _ _ Hword)|].
    split; [apply (uni_standalone_decided _ _ Hword)|].
    intros of_ascii Hclasses pre post -> Hnd Hlast.
    now apply (uni_users_2500 _ _ _ of_ascii Hword Hclasses).
  - intros text _ t u. unfold u, extract, profile_of. fold t. cbn [users].
    split; [apply users_hint_instance|].
    rewrite users_hint_lower.
    split; [apply users_hint_nonneg|].
    split; [apply users_hint_first|].
    split; [apply users_hint_none|].
    split; [apply standalone_decided|].
    intros pre post Heq Hnd Hlast. rewrite Heq.
    destruct (findall_from_after_no_digits pre "2500" (" employees" ++ post)
                None Hnd) as [rest Hrest].
    + repeat split; simpl; try lia; assumption.
    + unfold users_hint, Re.findall.
      change ("2500 employees" ++ post)%string
        with ("2500" ++ " employees" ++ post)%string.
      now rewrite Hrest.
Qed.

Lemma extract_users_witness :
  is_ascii_text "Roughly 2500 employees worldwide" = true /\
  users (extract (Some "2500 employees")) = int "2500" /\
  users (extract (Some "a few users")) = 1000%Z /\
  users (extract (Some "Roughly 2500 employees worldwide")) = 2500%Z /\
  Uni.users_of is_digit is_word digit_value
    (list_ascii_of_string "roughly 2500 employees worldwide") = 2500%Z.
Proof.
  split; [reflexivity|]. split; [|split; [|split]].
  - apply (proj1 (proj2 (proj2
             (proj2 extract_users (Some "2500 employees") eq_refl)))).
    exact (findall_from_first "2500 employees" None).
  - apply (proj1 (proj2 (proj2 (proj2
             (proj2 extract_users (Some "a few users") eq_refl))))).
    exact (findall_from_first "a few users" None).
  - apply (proj2 (proj2 (proj2 (proj2 (proj2
             (proj2 extract_users (Some "Roughly 2500 employees worldwide")
                eq_refl)))))
             "Roughly " " worldwide"); reflexivity.
  - apply (proj2 (proj2 (proj2 (proj2
             (proj1 extract_users ascii is_digit is_word digit_value
                digit_is_word digit_value_range
                (list_ascii_of_string "roughly 2500 employees worldwide")))))
             (fun c => c)
             (fun c _ => conj eq_refl (conj eq_refl (fun _ => eq_refl)))
             (list_ascii_of_string "roughly ")
             (list_ascii_of_string " worldwide"));
      reflexivity.
Defined.

(* ------------------------------------------------------------------ *)
(** ** The stable descending sort *)

Section SortDesc.

Context {A : Type}.
Variable key : A -> Z.

Lemma insert_desc_perm (x : A) (l : list A) :
  Permutation (x :: l) (insert_desc key x l).
Proof.
  induction l as [|y l IH]; simpl.
  - apply Permutation_refl.
  - destruct (key y <=? key x)%Z.
    + apply Permutation_refl.
    + eapply perm_trans; [apply perm_swap | now apply perm_skip].
Qed.

Lemma sort_desc_perm (l : list A) : Permutation l (sort_desc key l).
Proof.
  induction l as [|x l IH]; simpl.
  - constructor.
  - eapply perm_trans; [apply perm_skip, IH | apply insert_desc_perm].
Qed.

Lemma sort_desc_length (l : list A) :
  List.length (sort_desc key l) = List.length l.
Proof. symmetry. apply Permutation_length, sort_desc_perm. Qed.

Lemma insert_desc_descending (x : A) (l : list A) :
  descending key l -> descending key (insert_desc key x l).
Proof.
  unfold descending. induction l as [|y l IH]; simpl; intros Hs.
  - constructor; constructor.
  - inversion Hs as [|? ? Hs' Hall]; subst.
    destruct (key y <=? key x)%Z eqn:Hle.
    + apply Z.leb_le in Hle. constructor; [assumption|].
      constructor; [assumption|].
      eapply Forall_impl; [|exact Hall]. simpl. intros z Hz. lia.
    + apply Z.leb_gt in Hle. constructor; [now apply IH|].
      apply Forall_forall. intros z Hz.
      apply (Permutation_in _ (Permutation_sym (insert_desc_perm x l))) in Hz.
      destruct Hz as [<-|Hz]; [lia|].
      rewrite Forall_forall in Hall. now apply Hall.
Qed.

Lemma sort_desc_descending (l : list A) : descending key (sort_desc key l).
Proof.
  induction l as [|x l IH]; simpl.
  - constructor.
  - now apply insert_desc_descending.
Qed.

(** An inserted record only moves past records of a strictly greater key. *)
Lemma insert_desc_ties (x : A) (l : list A) (v : Z) :
  filter (fun y => (key y =? v)%Z) (insert_desc key x l)
  = filter (fun y => (key y =? v)%Z) (x :: l).
Proof.
  induction l as [|y l IH]; [reflexivity|].
  cbn [insert_desc]. destruct (key y <=? key x)%Z eqn:Hle; [reflexivity|].
  apply Z.leb_gt in Hle. cbn [filter] in *. rewrite IH.
  destruct (key x =? v)%Z eqn:Hx, (key y =? v)%Z eqn:Hy; try reflexivity.
  apply Z.eqb_eq in Hx, Hy. lia.
Qed.

Lemma sort_desc_stable (l : list A) : keeps_order_of_ties key l (sort_desc key l).
Proof.
  intros v. induction l as [|x l IH]; [reflexivity|].
  cbn [sort_desc fold_right]. rewrite insert_desc_ties.
  cbn [filter]. fold (sort_desc key l). now rewrite IH.
Qed.

End SortDesc.

(* ------------------------------------------------------------------ *)
(** ** [make_fmea] *)

(** C4. For every profile, [make_fmea] returns exactly 6 records, one per
    failure mode of the catalog; the RPN of each is the product of its
    severity, occurrence and detection; the list is in descending order of
    RPN, and records of equal RPN keep their catalog order. *)
Theorem make_fmea_sorted (a : analysis) :
  List.length (make_fmea a) = 6%nat /\
  Forall (fun r => RPN r = (Severity r * Occurrence r * Detection r)%Z)
    (make_fmea a) /\
  descending RPN (make_fmea a) /\
  keeps_order_of_ties RPN (fmea_catalog a) (make_fmea a) /\
  Permutation (fmea_catalog a) (make_fmea a) /\
  map Failure_Mode (fmea_catalog a) = FAILURE_MODES.
Proof.
  unfold make_fmea.
  assert (Hprod : Forall
            (fun r => RPN r = (Severity r * Occurrence r * Detection r)%Z)
            (fmea_catalog a))
    by (unfold fmea_catalog, add; simpl; repeat constructor).
  split; [rewrite sort_desc_length; reflexivity|].
  split.
  { rewrite Forall_forall in *. intros r Hr. apply Hprod.
    eapply Permutation_in; [apply Permutation_sym, sort_desc_perm | exact Hr]. }
  split; [apply sort_desc_descending|].
  split; [apply sort_desc_stable|].
  split; [apply sort_desc_perm | reflexivity].
Qed.

(* ------------------------------------------------------------------ *)
(** ** [make_fmea]: the occurrence heuristics *)

Section Occurrence.

Local Open Scope Z_scope.

Variable a : analysis.

Lemma integration_row :
  find_mode "Integration failure" (make_fmea a)
  = Some (mkItem "Integration failure"
            "Orders/shipments stuck; revenue impact"
            9 (5 + (if many_integrations a then 1 else 0)) 5
            (9 * (5 + (if many_integrations a then 1 else 0)) * 5)
            [ "Use standard IDoc/OData where possible";
              "Contract SLAs with external systems";
              "Retry & dead-letter queues; circuit breakers";
              "Observability on interfaces (alerts, traces)" ]).
Proof.
  unfold make_fmea, fmea_catalog.
  generalize (many_integrations a), (2000 <? users a), (cloud a || hybrid a).
  intros [] [] []; reflexivity.
Qed.

Lemma performance_row :
  find_mode "Performance degradation" (make_fmea a)
  = Some (mkItem "Performance degradation"
            "Slow UI and batch overruns"
            7 (4 + (if 2000 <? users a then 1 else 0)) 5
            (7 * (4 + (if 2000 <? users a then 1 else 0)) * 5)
            [ "OData caching & CDS view tuning";
              "Archive/cold-store aged data";
              "Background jobs leveled; capacity tests" ]).
Proof.
  unfold make_fmea, fmea_catalog.
  generalize (many_integrations a), (2000 <? users a), (cloud a || hybrid a).
  intros [] [] []; reflexivity.
Qed.

Lemma availability_row :
  find_mode "Availability / DR gap" (make_fmea a)
  = Some (mkItem "Availability / DR gap"
            "Extended outage"
            9 (3 + (if cloud a || hybrid a then 1 else 0)) 4
            (9 * (3 + (if cloud a || hybrid a then 1 else 0)) * 4)
            [ "Automated backups; tested restore";
              "Cross-region replicas; failover drills";
              "RPO/RTO in runbooks" ]).
Proof.
  unfold make_fmea, fmea_catalog.
  generalize (many_integrations a), (2000 <? users a), (cloud a || hybrid a).
  intros [] [] []; reflexivity.
Qed.

Lemma many_integrations_spec :
  many_integrations a = true <-> (2 <= List.length (external a))%nat.
Proof. unfold many_integrations. apply Nat.leb_le. Qed.

Lemma cloud_or_hybrid_spec :
  cloud a || hybrid a = true <-> cloud_or_hybrid (hosting a).
Proof.
  unfold cloud, hybrid, cloud_or_hybrid.
  rewrite !orb_true_iff, contains_spec, mem_spec, String.eqb_eq. simpl.
  split.
  - intros [[H|[H|[H|[]]]]|H]; auto; left; rewrite <- H; by_running.
  - intros [H|H]; auto.
Qed.

End Occurrence.

Lemma extract_hosting_values (text : option string) :
  In (hosting (extract text)) HOSTING_VALUES.
Proof.
  unfold extract, profile_of, classify_hosting, HOSTING_VALUES. cbn [hosting].
  generalize (lower (text_or_empty text)). intros t.
  destruct (contains "hybrid" t), (contains "aws" t), (contains "azure" t),
    (contains "on-prem" t || contains "on prem" t); simpl; auto 6.
Qed.

Lemma cloud_or_hybrid_values (h : string) :
  In h HOSTING_VALUES -> (cloud_or_hybrid h <-> h <> "On-Prem").
Proof.
  unfold cloud_or_hybrid.
  intros [<-|[<-|[<-|[<-|[<-|[]]]]]]; split; intros H;
    try discriminate;
    try (left; by_running); try (now right); try (now elim H).
  destruct H as [H|H]; [|discriminate].
  exfalso. revert H. by_running.
Qed.

Ltac settle H :=
  match type of H with
  | true = true <-> ?P => assert P by (apply H; reflexivity)
  | false = true <-> ?P =>
      assert (~ P)
        by (let X := fresh in intros X; apply H in X; discriminate X)
  end;
  clear H.

(** C5. The occurrence of the Integration-failure record is its base 5 plus
    one exactly when the profile has at least 2 external systems, that of the
    Performance-degradation record is its base 4 plus one exactly when
    [users] exceeds 2000, that of the Availability-gap record is its base 3
    plus one exactly when the hosting value names a cloud or is "Hybrid" (for
    a profile of the extractor: exactly when it is not "On-Prem"); otherwise
    each is its base.  Hence, all other fields equal, a profile with at
    least 2 external systems has a strictly greater Integration-failure
    occurrence and RPN than one with fewer than 2. *)
Theorem fmea_occurrence_adjustments :
  (forall a : analysis,
      exists oi op oa : Z,
        occurrence_of "Integration failure" (make_fmea a) = Some oi /\
        occurrence_of "Performance degradation" (make_fmea a) = Some op /\
        occurrence_of "Availability / DR gap" (make_fmea a) = Some oa /\
        (oi = (5 + 1)%Z <-> (2 <= List.length (external a))%nat) /\
        (oi = 5%Z <-> (List.length (external a) < 2)%nat) /\
        (op = 4 + 1 <-> 2000 < users a)%Z /\
        (op = 4 <-> users a <= 2000)%Z /\
        (oa = (3 + 1)%Z <-> cloud_or_hybrid (hosting a)) /\
        (oa = 3%Z <-> ~ cloud_or_hybrid (hosting a))) /\
  (forall text : option string,
      occurrence_of "Availability / DR gap" (make_fmea (extract text))
      = Some (if String.eqb (hosting (extract text)) "On-Prem"
              then 3 else 3 + 1)%Z) /\
  (forall a1 a2 : analysis,
      modules a1 = modules a2 -> hosting a1 = hosting a2 ->
      compliance a1 = compliance a2 -> users a1 = users a2 ->
      (2 <= List.length (external a1))%nat ->
      (List.length (external a2) < 2)%nat ->
      exists o1 o2 r1 r2 : Z,
        occurrence_of "Integration failure" (make_fmea a1) = Some o1 /\
        occurrence_of "Integration failure" (make_fmea a2) = Some o2 /\
        rpn_of "Integration failure" (make_fmea a1) = Some r1 /\
        rpn_of "Integration failure" (make_fmea a2) = Some r2 /\
        (o2 < o1)%Z /\ (r2 < r1)%Z).
Proof.
  split; [|split].
  - intros a. unfold occurrence_of.
    rewrite integration_row, performance_row, availability_row.
    cbn [option_map Occurrence].
    do 3 eexists. do 3 (split; [reflexivity|]).
    pose proof (many_integrations_spec a) as Hm.
    pose proof (cloud_or_hybrid_spec a) as Hc.
    pose proof (Z.ltb_lt 2000 (users a)) as Hu.
    destruct (many_integrations a), (2000 <? users a)%Z,
      (cloud a || hybrid a);
      settle Hm; settle Hc; settle Hu;
      repeat split; intros;
      first [lia | assumption | contradiction | reflexivity].
  - intros text. unfold occurrence_of. rewrite availability_row.
    cbn [option_map Occurrence]. f_equal.
    pose proof (cloud_or_hybrid_spec (extract text)) as Hc.
    pose proof (cloud_or_hybrid_values _ (extract_hosting_values text)) as Hv.
    destruct (String.eqb_spec (hosting (extract text)) "On-Prem") as [He|He].
    + destruct (cloud (extract text) || hybrid (extract text));
        [|reflexivity].
      exfalso. apply Hv; [now apply Hc | assumption].
    + destruct (cloud (extract text) || hybrid (extract text));
        [reflexivity|].
      apply Hv, Hc in He. discriminate He.
  - intros a1 a2 _ _ _ _ H1 H2. unfold occurrence_of, rpn_of.
    rewrite !integration_row. cbn [option_map Occurrence RPN].
    apply many_integrations_spec in H1.
    assert (H2' : many_integrations a2 = false).
    { destruct (many_integrations a2) eqn:E; [|reflexivity].
      apply many_integrations_spec in E. lia. }
    rewrite H1, H2'. do 4 eexists. repeat split; lia.
Qed.

Lemma fmea_occurrence_adjustments_witness :
  let a1 := mkAnalysis ["Fiori"; "S/4HANA"] ["Salesforce CRM"; "POS"]
              "On-Prem" [] 1000 in
  let a2 := mkAnalysis ["Fiori"; "S/4HANA"] ["POS"] "On-Prem" [] 1000 in
  exists o1 o2 r1 r2 : Z,
    occurrence_of "Integration failure" (make_fmea a1) = Some o1 /\
    occurrence_of "Integration failure" (make_fmea a2) = Some o2 /\
    rpn_of "Integration failure" (make_fmea a1) = Some r1 /\
    rpn_of "Integration failure" (make_fmea a2) = Some r2 /\
    (o2 < o1)%Z /\ (r2 < r1)%Z.
Proof.
  intros a1 a2.
  apply (proj2 (proj2 fmea_occurrence_adjustments) a1 a2);
    try reflexivity; simpl; lia.
Defined.

(* ------------------------------------------------------------------ *)
(** ** Accumulating loops *)

Section Loops.

Context {A B : Type}.

Lemma fold_left_append (f : A -> B) (l : list A) (acc : list B) :
  fold_left (fun d x => d ++ [f x]) l acc = acc ++ map f l.
Proof.
  revert acc; induction l as [|x l IH]; intros acc; simpl.
  - now rewrite app_nil_r.
  - now rewrite IH, <- app_assoc.
Qed.

Lemma fold_left_append_if (p : A -> bool) (f : A -> B) (l : list A)
    (acc : list B) :
  fold_left (fun d x => if p x then d ++ [f x] else d) l acc
  = acc ++ map f (filter p l).
Proof.
  revert acc; induction l as [|x l IH]; intros acc; simpl.
  - now rewrite app_nil_r.
  - rewrite IH. destruct (p x); simpl; [now rewrite <- app_assoc | reflexivity].
Qed.

Lemma fold_left_append_option (f : A -> option B) (l : list A)
    (acc : list B) :
  fold_left
    (fun d x => match f x with Some b => d ++ [b] | None => d end) l acc
  = acc ++ flat_map (fun x => option_list (f x)) l.
Proof.
  revert acc; induction l as [|x l IH]; intros acc; simpl.
  - now rewrite app_nil_r.
  - rewrite IH. destruct (f x); simpl; [now rewrite <- app_assoc | reflexivity].
Qed.

End Loops.

(* ------------------------------------------------------------------ *)
(** ** [mitigation_narrative] *)

Section Narrative.

Variable fmea_items : list fmea_item.
Variable a : analysis.

Lemma narrative_bullets_top4 :
  narrative_bullets fmea_items
  = flat_map (fun row => option_list (narrative_block (Failure_Mode row)))
      (firstn 4 fmea_items).
Proof. unfold narrative_bullets. now rewrite fold_left_append_option. Qed.

Lemma narrative_extra_In (b : string) :
  In b (narrative_extra a) <->
  (b = BLOCK_GDPR /\ In "GDPR" (compliance a)) \/
  (b = BLOCK_HIPAA /\ In "HIPAA" (compliance a)).
Proof.
  unfold narrative_extra.
  rewrite <- (mem_spec "GDPR"), <- (mem_spec "HIPAA").
  destruct (mem "GDPR" (compliance a)), (mem "HIPAA" (compliance a));
    cbn [app In]; intuition (try discriminate; try congruence).
Qed.

Lemma narrative_of_line (b : string) :
  In b (narrative_bullets fmea_items ++ narrative_extra a) ->
  b <> EmptyString ->
  mitigation_narrative fmea_items a = narrative_text fmea_items a /\
  occurs_in b (mitigation_narrative fmea_items a).
Proof.
  intros Hin Hb. unfold mitigation_narrative.
  assert (Hne : narrative_text fmea_items a <> EmptyString)
    by (unfold narrative_text; now apply join_nonempty with b).
  apply String.eqb_neq in Hne. rewrite Hne. split; [reflexivity|].
  unfold narrative_text. now apply occurs_in_join.
Qed.

End Narrative.

(** C6. For every risk list and every profile, the narrative is made of the
    blocks of the first 4 records of the list, in order, followed by the
    compliance blocks; the GDPR block is among them whenever "GDPR" is in the
    compliance list, and the HIPAA block whenever "HIPAA" is, whatever the
    first 4 records are; no other compliance block is added. *)
Theorem narrative_compliance_blocks
    (fmea_items : list fmea_item) (a : analysis) :
  let top4 :=
    flat_map (fun row => option_list (narrative_block (Failure_Mode row)))
      (firstn 4 fmea_items) in
  narrative_bullets fmea_items = top4 /\
  narrative_text fmea_items a = join newline (top4 ++ narrative_extra a) /\
  (forall b,
      In b (narrative_extra a) <->
      (b = BLOCK_GDPR /\ In "GDPR" (compliance a)) \/
      (b = BLOCK_HIPAA /\ In "HIPAA" (compliance a))) /\
  (In "GDPR" (compliance a) ->
   mitigation_narrative fmea_items a = join newline (top4 ++ narrative_extra a)
   /\ occurs_in BLOCK_GDPR (mitigation_narrative fmea_items a)) /\
  (In "HIPAA" (compliance a) ->
   mitigation_narrative fmea_items a = join newline (top4 ++ narrative_extra a)
   /\ occurs_in BLOCK_HIPAA (mitigation_narrative fmea_items a)).
Proof.
  intros top4.
  assert (Htop : narrative_bullets fmea_items = top4)
    by apply narrative_bullets_top4.
  assert (Htext : narrative_text fmea_items a
                  = join newline (top4 ++ narrative_extra a))
    by (unfold narrative_text; now rewrite Htop).
  split; [exact Htop|]. split; [exact Htext|].
  split; [apply narrative_extra_In|].
  split; intros Hin; rewrite <- Htext.
  - apply narrative_of_line; [|discriminate].
    apply in_or_app. right. apply narrative_extra_In. auto.
  - apply narrative_of_line; [|discriminate].
    apply in_or_app. right. apply narrative_extra_In. auto.
Qed.

Lemma narrative_compliance_blocks_witness :
  let a := mkAnalysis ["Fiori"; "S/4HANA"] [] "On-Prem" ["GDPR"; "HIPAA"] 1000 in
  occurs_in BLOCK_GDPR (mitigation_narrative [] a) /\
  occurs_in BLOCK_HIPAA (mitigation_narrative [] a).
Proof.
  intros a. split.
  - apply (proj1 (proj2 (proj2 (proj2 (narrative_compliance_blocks [] a))))).
    simpl. auto.
  - apply (proj2 (proj2 (proj2 (proj2 (narrative_compliance_blocks [] a))))).
    simpl. auto.
Defined.

(* ------------------------------------------------------------------ *)
(** ** [mitigation_narrative] after [make_fmea] *)

Lemma make_fmea_first_block (a : analysis) :
  exists (b : string) (bs : list string),
    narrative_bullets (make_fmea a) = b :: bs /\
    In b [BLOCK_INTEGRATION; BLOCK_MASTER_DATA].
Proof.
  unfold make_fmea, fmea_catalog.
  generalize (many_integrations a), (2000 <? users a)%Z, (cloud a || hybrid a).
  intros [] [] []; eexists; eexists; (split; [reflexivity|]); simpl; auto.
Qed.

Lemma join_cons_starts (sep b : string) (bs : list string) :
  exists tail : string, join sep (b :: bs) = (b ++ tail)%string.
Proof.
  unfold join. destruct bs as [|b' bs]; simpl.
  - exists EmptyString. now rewrite append_nil_r.
  - eexists. reflexivity.
Qed.

(** C9. For every profile produced by the extractor, the first 4 records of
    the sorted risk list give at least one block, so the narrative text is
    not empty, [mitigation_narrative] returns it, and the default message is
    never returned. *)
Theorem narrative_fallback_unreachable (text : option string) :
  let a := extract text in
  (exists row b,
      In row (firstn 4 (make_fmea a)) /\
      In (Failure_Mode row) FAILURE_MODES /\
      narrative_block (Failure_Mode row) = Some b) /\
  narrative_bullets (make_fmea a) <> [] /\
  narrative_text (make_fmea a) a <> EmptyString /\
  mitigation_narrative (make_fmea a) a = narrative_text (make_fmea a) a /\
  mitigation_narrative (make_fmea a) a <> EmptyString /\
  mitigation_narrative (make_fmea a) a <> NO_HIGH_RISKS.
Proof.
  intros a.
  destruct (make_fmea_first_block a) as [b [bs [Hb Hin]]].
  assert (Hne : b <> EmptyString)
    by (destruct Hin as [<-|[<-|[]]]; discriminate).
  assert (Hline : In b (narrative_bullets (make_fmea a) ++ narrative_extra a))
    by (rewrite Hb; now left).
  destruct (narrative_of_line (make_fmea a) a b Hline Hne) as [Heq Hocc].
  assert (Htext : narrative_text (make_fmea a) a <> EmptyString)
    by (unfold narrative_text; now apply join_nonempty with b).
  split.
  { unfold make_fmea, fmea_catalog.
    generalize (many_integrations a), (2000 <? users a)%Z,
      (cloud a || hybrid a).
    intros [] [] []; eexists; eexists;
      (split; [left; reflexivity|]); (split; [|reflexivity]);
      simpl; auto 7. }
  split; [rewrite Hb; discriminate|].
  split; [exact Htext|]. split; [exact Heq|].
  split; [now rewrite Heq|].
  rewrite Heq. unfold narrative_text. rewrite Hb. cbn [app].
  destruct (join_cons_starts newline b (bs ++ narrative_extra a))
    as [tail ->].
  destruct Hin as [<-|[<-|[]]]; discriminate.
Qed.

(* ------------------------------------------------------------------ *)
(** ** [build_dot] *)

Section Graph.

Variable a : analysis.

Lemma build_edges_eq :
  build_edges a
  = [("Users", "Fiori"); ("Fiori", "S/4HANA"); ("S/4HANA", hosting a)]
    ++ map (fun m => (m, "S/4HANA"))
         (filter (fun m => negb (mem m ANCHORS)) (modules a))
    ++ map (fun ext => (ext, "S/4HANA")) (external a).
Proof.
  unfold build_edges.
  rewrite (fold_left_append (fun ext => (ext, "S/4HANA"))).
  rewrite (fold_left_append_if (fun m => negb (mem m ANCHORS))
             (fun m => (m, "S/4HANA"))).
  now rewrite <- app_assoc.
Qed.

Lemma graph_nodes_In (edges : list edge) (n : string) :
  In n (graph_nodes edges) <->
  exists e, In e edges /\ (n = fst e \/ n = snd e).
Proof.
  unfold graph_nodes, set_of_list. rewrite set_update_In, in_flat_map.
  split.
  - intros [[[x y] [He Hn]]|[]]. exists (x, y). simpl in *.
    intuition congruence.
  - intros [[x y] [He Hn]]. left. exists (x, y). simpl in *.
    intuition congruence.
Qed.

Lemma graph_nodes_NoDup (edges : list edge) : NoDup (graph_nodes edges).
Proof. apply set_update_NoDup. constructor. Qed.

Lemma dot_lines_eq :
  dot_lines a
  = DOT_HEADER
    ++ map node_line (sorted (graph_nodes (build_edges a)))
    ++ map edge_line (build_edges a)
    ++ ["}"].
Proof.
  unfold dot_lines. rewrite !fold_left_append. now rewrite <- !app_assoc.
Qed.

End Graph.

(** C7. For every profile, the edge list is the three template edges
    Users -> Fiori, Fiori -> S/4HANA, S/4HANA -> hosting, then one edge to
    S/4HANA from every module tag that is not an anchor, in the order of the
    modules list, then one edge to S/4HANA from every external system, in
    the order of the external list; the nodes are the endpoints of the edges
    without duplicates, in ascending code-point order; the output lists the
    header, the nodes, the edges in construction order and the closing
    brace. *)
Theorem build_dot_graph (a : analysis) :
  let edges := build_edges a in
  let nodes := sorted (graph_nodes edges) in
  edges
  = [("Users", "Fiori"); ("Fiori", "S/4HANA"); ("S/4HANA", hosting a)]
    ++ map (fun m => (m, "S/4HANA"))
         (filter (fun m => negb (mem m ANCHORS)) (modules a))
    ++ map (fun ext => (ext, "S/4HANA")) (external a) /\
  (forall m, negb (mem m ANCHORS) = true <-> m <> "S/4HANA" /\ m <> "Fiori") /\
  NoDup nodes /\
  ascending nodes /\
  (forall n, In n nodes <-> exists e, In e edges /\ (n = fst e \/ n = snd e)) /\
  build_dot a
  = join newline
      (DOT_HEADER ++ map node_line nodes ++ map edge_line edges ++ ["}"]).
Proof.
  intros edges nodes. unfold nodes, edges.
  split; [apply build_edges_eq|].
  split.
  { intros m. rewrite negb_true_iff. split.
    - intros H. split; intros ->; discriminate H.
    - intros [H1 H2]. destruct (mem m ANCHORS) eqn:E; [|reflexivity].
      apply mem_spec in E. simpl in E. intuition congruence. }
  split; [apply sorted_NoDup, graph_nodes_NoDup|].
  split; [apply sorted_ascending, graph_nodes_NoDup|].
  split.
  - intros n. rewrite sorted_In. apply graph_nodes_In.
  - unfold build_dot. now rewrite dot_lines_eq.
Qed.

(* ------------------------------------------------------------------ *)
(** ** The end-to-end scenario *)

(** C8. For the scenario text: the modules include FI, MM, S/4HANA and
    Fiori; the external systems include Salesforce CRM and 3PL / Logistics;
    hosting is "AWS Cloud"; compliance is [GDPR]; users is 5000; the
    Integration-failure record has occurrence 5 + 1; the narrative contains
    the Integration-failure block and the GDPR block. *)
Theorem scenario_end_to_end :
  let a := extract (Some SCENARIO) in
  let fmea := make_fmea a in
  In "FI" (modules a) /\ In "MM" (modules a) /\
  In "S/4HANA" (modules a) /\ In "Fiori" (modules a) /\
  In "Salesforce CRM" (external a) /\ In "3PL / Logistics" (external a) /\
  hosting a = "AWS Cloud" /\
  compliance a = ["GDPR"] /\
  users a = 5000%Z /\
  occurrence_of "Integration failure" fmea = Some (5 + 1)%Z /\
  occurs_in BLOCK_INTEGRATION (mitigation_narrative fmea a) /\
  occurs_in BLOCK_GDPR (mitigation_narrative fmea a).
Proof.
  intros a fmea.
  assert (Ha : a = mkAnalysis ["FI"; "Fiori"; "MM"; "S/4HANA"; "SD"]
                     ["Salesforce CRM"; "3PL / Logistics"]
                     "AWS Cloud" ["GDPR"] 5000)
    by (vm_compute; reflexivity).
  unfold fmea. rewrite Ha. cbn [modules external hosting compliance users].
  repeat match goal with
         | |- _ /\ _ => split
         end;
    try (simpl; auto 6; fail); try reflexivity; by_running.
Qed.

(* ================================================================== *)
(** * Further properties of the code *)

(* ------------------------------------------------------------------ *)
(** ** Subsequences *)

Section Subsequences.

Context {A B : Type}.

Lemma subsequence_refl (l : list A) : subsequence l l.
Proof. induction l; constructor; assumption. Qed.

Lemma subsequence_filter (p : A -> bool) (l : list A) :
  subsequence (filter p l) l.
Proof.
  induction l as [|x l IH]; simpl; [constructor|].
  destruct (p x); constructor; assumption.
Qed.

Lemma subsequence_map (f : A -> B) (l big : list A) :
  subsequence l big -> subsequence (map f l) (map f big).
Proof. induction 1; simpl; constructor; assumption. Qed.

Lemma subsequence_In (l big : list A) (x : A) :
  subsequence l big -> In x l -> In x big.
Proof.
  induction 1 as [|y l big _ IH|y l big _ IH]; simpl; intuition.
Qed.

Lemma subsequence_NoDup (l big : list A) :
  subsequence l big -> NoDup big -> NoDup l.
Proof.
  induction 1 as [|y l big Hs IH|y l big Hs IH]; intros Hnd.
  - constructor.
  - inversion Hnd; subst. now apply IH.
  - inversion Hnd; subst. constructor; [|now apply IH].
    intros Hin. now apply (subsequence_In _ _ _ Hs) in Hin.
Qed.

Lemma subsequence_length (l big : list A) :
  subsequence l big -> (List.length l <= List.length big)%nat.
Proof. induction 1; simpl; lia. Qed.

End Subsequences.

Ltac nodup_by_cases :=
  repeat (constructor; [simpl; intuition discriminate|]); constructor.

(* ------------------------------------------------------------------ *)
(** ** [extract]: external systems and compliance tags *)

Lemma matched_externals_In (t name : string) :
  In name (matched_externals t) <->
  exists kws kw, In (name, kws) EXT_SYSTEMS /\ In kw kws /\ occurs_in kw t.
Proof.
  unfold matched_externals. rewrite in_map_iff. split.
  - intros [[n kws] [Hn Hin]]. simpl in Hn. subst n.
    apply filter_In in Hin. destruct Hin as [Hin Hany].
    apply any_in_spec in Hany. destruct Hany as [kw [Hkw Hocc]].
    now exists kws, kw.
  - intros [kws [kw [Hin [Hkw Hocc]]]]. exists (name, kws).
    split; [reflexivity|]. apply filter_In. split; [assumption|].
    apply any_in_spec. now exists kw.
Qed.

Lemma matched_externals_subsequence (t : string) :
  subsequence (matched_externals t) (map fst EXT_SYSTEMS).
Proof. apply subsequence_map, subsequence_filter. Qed.

Lemma ext_names_NoDup : NoDup (map fst EXT_SYSTEMS).
Proof. simpl. nodup_by_cases. Qed.

(** X1. For every input text, the external list holds the registry names of
    the systems with a keyword in the lowercased text, each once, in the
    order of the registry and not of the text. *)
Theorem extract_external_registry_order (text : option string) :
  let t := lower (text_or_empty text) in
  subsequence (external (extract text))
    [ "Salesforce CRM"; "Oracle DB (Legacy)"; "3PL / Logistics";
      "E-commerce"; "IoT Gateway"; "POS"; "EHR" ] /\
  NoDup (external (extract text)) /\
  (List.length (external (extract text)) <= 7)%nat /\
  (forall name,
      In name (external (extract text)) <->
      exists kws kw,
        In (name, kws) EXT_SYSTEMS /\ In kw kws /\ occurs_in kw t).
Proof.
  intros t. unfold extract, profile_of. fold t. cbn [external].
  pose proof (matched_externals_subsequence t) as Hsub.
  split; [exact Hsub|].
  split; [exact (subsequence_NoDup _ _ Hsub ext_names_NoDup)|].
  split; [exact (subsequence_length _ _ Hsub)|].
  intros name. apply matched_externals_In.
Qed.

Lemma matched_compliance_eq (t : string) :
  matched_compliance t
  = map upper (filter (fun word => contains word t) COMPLIANCE_WORDS).
Proof.
  unfold matched_compliance.
  now rewrite (fold_left_append_if (fun word => contains word t) upper).
Qed.

(** X2. For every input text, the compliance list is a selection of GDPR,
    HIPAA, PCI-DSS, ISO in that order, each at most once; a tag is selected
    exactly when its lowercase token occurs in the lowercased text, inside a
    longer word included. *)
Theorem extract_compliance_scan_order (text : option string) :
  let t := lower (text_or_empty text) in
  subsequence (compliance (extract text)) COMPLIANCE_TAGS /\
  NoDup (compliance (extract text)) /\
  (In "GDPR" (compliance (extract text)) <-> occurs_in "gdpr" t) /\
  (In "HIPAA" (compliance (extract text)) <-> occurs_in "hipaa" t) /\
  (In "PCI-DSS" (compliance (extract text)) <-> occurs_in "pci-dss" t) /\
  (In "ISO" (compliance (extract text)) <-> occurs_in "iso" t) /\
  (forall tag, In tag (compliance (extract text)) -> In tag COMPLIANCE_TAGS).
Proof.
  intros t. unfold extract, profile_of. fold t. cbn [compliance].
  rewrite matched_compliance_eq.
  assert (Hsub : subsequence
            (map upper (filter (fun word => contains word t) COMPLIANCE_WORDS))
            COMPLIANCE_TAGS)
    by (change COMPLIANCE_TAGS with (map upper COMPLIANCE_WORDS);
        apply subsequence_map, subsequence_filter).
  split; [exact Hsub|].
  split; [apply (subsequence_NoDup _ _ Hsub); unfold COMPLIANCE_TAGS;
          nodup_by_cases|].
  rewrite <- !contains_spec.
  unfold COMPLIANCE_WORDS. cbn [filter].
  destruct (contains "gdpr" t), (contains "hipaa" t), (contains "pci-dss" t),
    (contains "iso" t); cbn [map upper upper_char In];
    repeat split; intros; try reflexivity;
    try (exact (subsequence_In _ _ _ Hsub ltac:(eassumption)));
    try (simpl; intuition discriminate);
    try (vm_compute; intuition discriminate).
Qed.

(* ------------------------------------------------------------------ *)
(** ** [extract]: letter case *)

Section LetterCase.

Local Open Scope string_scope.

Ltac by_cases_on c :=
  destruct c as [[] [] [] [] [] [] [] []]; reflexivity.

Lemma lower_char_idempotent (c : ascii) :
  lower_char (lower_char c) = lower_char c.
Proof. by_cases_on c. Qed.

Lemma lower_upper_char (c : ascii) : lower_char (upper_char c) = lower_char c.
Proof. by_cases_on c. Qed.

Lemma lower_idempotent (s : string) : lower (lower s) = lower s.
Proof.
  induction s as [|c s IH]; simpl; [reflexivity|].
  now rewrite lower_char_idempotent, IH.
Qed.

Lemma lower_upper (s : string) : lower (upper s) = lower s.
Proof.
  induction s as [|c s IH]; simpl; [reflexivity|].
  now rewrite lower_upper_char, IH.
Qed.

Lemma lower_append (a b : string) : lower (a ++ b) = lower a ++ lower b.
Proof. induction a as [|c a IH]; simpl; [reflexivity | now rewrite IH]. Qed.

Lemma occurs_in_lower (w s : string) :
  occurs_in w s -> occurs_in (lower w) (lower s).
Proof.
  intros [pre [post ->]]. exists (lower pre), (lower post).
  now rewrite !lower_append.
Qed.

End LetterCase.

(** X3. [extract] does not see letter case: a text, its uppercase form and
    its lowercase form give the same profile, and an absent text gives the
    profile of the empty text. *)
Theorem extract_ignores_case (s : string) :
  extract (Some (upper s)) = extract (Some s) /\
  extract (Some (lower s)) = extract (Some s) /\
  extract None = extract (Some EmptyString).
Proof.
  unfold extract, profile_of, text_or_empty.
  now rewrite lower_upper, lower_idempotent.
Qed.

(** X4. Keywords match as substrings in any letter case: when a word whose
    lowercase form is a keyword of a module tag (of an external system)
    occurs anywhere in the text, inside a longer word included, the tag is
    in the modules (the system is in the external list). *)
Theorem extract_keyword_any_case
    (text tag w : string) (kws : list string) :
  In (lower w) kws -> occurs_in w text ->
  (In (tag, kws) MODULE_KEYWORDS -> In tag (modules (extract (Some text)))) /\
  (In (tag, kws) EXT_SYSTEMS -> In tag (external (extract (Some text)))).
Proof.
  intros Hkw Hocc. apply occurs_in_lower in Hocc.
  unfold extract, profile_of, text_or_empty. cbn [modules external]. split; intros Hin.
  - rewrite sorted_In, with_anchors_In, matched_modules_In.
    right. right. now exists kws, (lower w).
  - apply matched_externals_In. now exists kws, (lower w).
Qed.

Lemma extract_keyword_any_case_witness :
  In "FI" (modules (extract (Some "A TAXI fleet and the CORACLES club"))) /\
  In "Oracle DB (Legacy)"
    (external (extract (Some "A TAXI fleet and the CORACLES club"))).
Proof.
  split.
  - apply (proj1 (extract_keyword_any_case
                    "A TAXI fleet and the CORACLES club" "FI" "TAX"
                    ["finance"; "ledger"; "invoice"; "tax"; "closing"]
                    ltac:(simpl; auto 6) ltac:(by_running))).
    simpl. auto.
  - apply (proj2 (extract_keyword_any_case
                    "A TAXI fleet and the CORACLES club"
                    "Oracle DB (Legacy)" "ORACLE" ["oracle"]
                    ltac:(simpl; auto) ltac:(by_running))).
    simpl. auto.
Defined.

(* ------------------------------------------------------------------ *)
(** ** [extract]: bounds *)

Section Bounds.

Local Open Scope Z_scope.

Lemma int_from_upper (s : string) (acc : Z) :
  all_digits s = true -> 0 <= acc ->
  int_from acc s < (acc + 1) * 10 ^ Z.of_nat (String.length s).
Proof.
  revert acc; induction s as [|c s IH]; intros acc Hd Hacc.
  - simpl. lia.
  - simpl in Hd. apply andb_true_iff in Hd. destruct Hd as [Hc Hd].
    pose proof (digit_value_range c Hc) as Hv.
    cbn [int_from String.length].
    specialize (IH (acc * 10 + digit_value c) Hd ltac:(lia)).
    rewrite Nat2Z.inj_succ, Z.pow_succ_r by lia.
    assert (Hp : 0 < 10 ^ Z.of_nat (String.length s))
      by (apply Z.pow_pos_nonneg; lia).
    nia.
Qed.

Lemma users_hint_upper (t : string) : users_hint t <= 999999.
Proof.
  unfold users_hint, Re.findall.
  pose proof (findall_from_digits t None 0) as H.
  destruct (Re.findall_from None 0 t) as [|d ds]; [lia|].
  inversion H as [|? ? [Hd [_ Hlen]] _]; subst.
  pose proof (int_from_upper d 0 Hd ltac:(lia)) as Hup. fold (int d) in Hup.
  assert (Hpow : 10 ^ Z.of_nat (String.length d) <= 10 ^ 6)
    by (apply Z.pow_le_mono_r; lia).
  lia.
Qed.

End Bounds.

Lemma module_tags_NoDup : NoDup (map fst MODULE_KEYWORDS).
Proof. simpl. nodup_by_cases. Qed.

(** X5. For every input text, [users] lies between 0 and 999999, a capture
    having at most 6 digits: so it is of lines 107 and 108 for every
    alphabet whose digits are word characters with values from 0 to 9, and
    so it is of the profile of every ASCII text. *)
Theorem extract_users_range :
  (forall (char : Type) (is_digit' is_word' : char -> bool)
          (digit_value' : char -> Z),
      (forall c, is_digit' c = true -> is_word' c = true) ->
      (forall c, is_digit' c = true -> (0 <= digit_value' c <= 9)%Z) ->
      forall t : list char,
        (0 <= Uni.users_of is_digit' is_word' digit_value' t <= 999999)%Z) /\
  (forall text : option string,
      is_ascii_text (text_or_empty text) = true ->
      (0 <= users (extract text) <= 999999)%Z).
Proof.
  split.
  - intros char is_digit' is_word' digit_value' Hword Hrange t.
    apply (uni_users_of_range _ _ _ Hword Hrange t).
  - intros text _. unfold extract, profile_of. cbn [users].
    split; [apply users_hint_nonneg | apply users_hint_upper].
Qed.

Lemma extract_users_range_witness :
  is_ascii_text "Plant with 999999 sensors" = true /\
  (0 <= users (extract (Some "Plant with 999999 sensors")) <= 999999)%Z.
Proof.
  split; [reflexivity|].
  apply (proj2 extract_users_range (Some "Plant with 999999 sensors")).
  reflexivity.
Defined.

(** X6. For every input text, the modules are tags of the registry, and
    there are at least 2 and at most 13 of them. *)
Theorem extract_modules_range (text : option string) :
  incl (modules (extract text)) (map fst MODULE_KEYWORDS) /\
  (2 <= List.length (modules (extract text)) <= 13)%nat.
Proof.
  set (t := lower (text_or_empty text)).
  assert (Hnd : NoDup (modules (extract text)))
    by (apply sorted_NoDup, with_anchors_NoDup, matched_modules_NoDup).
  assert (Hin : forall tag,
             In tag (modules (extract text)) <->
             tag = "S/4HANA" \/ tag = "Fiori" \/ In tag (matched_modules t))
    by (intros tag; unfold extract, profile_of; cbn [modules]; fold t;
        now rewrite sorted_In, with_anchors_In).
  assert (Hincl : incl (modules (extract text)) (map fst MODULE_KEYWORDS)).
  { intros tag Htag. apply Hin in Htag.
    destruct Htag as [->|[->|Htag]]; [simpl; auto 20 | simpl; auto 20 |].
    apply matched_modules_In in Htag. destruct Htag as [kws [kw [Hreg _]]].
    apply in_map_iff. now exists (tag, kws). }
  split; [exact Hincl|]. split.
  - change 2%nat with (List.length ["S/4HANA"; "Fiori"]).
    apply NoDup_incl_length; [nodup_by_cases|].
    intros tag [<-|[<-|[]]]; apply Hin; auto.
  - change 13%nat with (List.length (map fst MODULE_KEYWORDS)).
    now apply NoDup_incl_length.
Qed.

(* ------------------------------------------------------------------ *)
(** ** [make_fmea]: the ranking *)

Section Ranking.

Local Open Scope Z_scope.

Variable a : analysis.

Lemma make_fmea_modes :
  map Failure_Mode (make_fmea a)
  = ranked_modes (many_integrations a) (2000 <? users a)
      (cloud a || hybrid a).
Proof.
  unfold make_fmea, fmea_catalog.
  generalize (many_integrations a), (2000 <? users a), (cloud a || hybrid a).
  intros [] [] []; reflexivity.
Qed.

Lemma make_fmea_rpns :
  map RPN (make_fmea a)
  = (if many_integrations a then [270; 240] else [240; 225])
    ++ [192]
    ++ (if 2000 <? users a
        then (if cloud a || hybrid a then [175; 144; 120] else [175; 120; 108])
        else (if cloud a || hybrid a then [144; 140; 120] else [140; 120; 108])).
Proof.
  unfold make_fmea, fmea_catalog.
  generalize (many_integrations a), (2000 <? users a), (cloud a || hybrid a).
  intros [] [] []; reflexivity.
Qed.

End Ranking.

Ltac side_condition :=
  first [ assumption
        | lia
        | split; [lia | assumption]
        | intros [? ?]; first [lia | contradiction] ].

(** X7. The ranking of the failure modes is fixed by the three heuristics.
    The first three records are Integration failure, Master data quality
    issues, Data migration error when the profile has at least 2 external
    systems, and Master data quality issues, Integration failure, Data
    migration error otherwise.  The fourth is Availability / DR gap when
    [users] is at most 2000 and the hosting names a cloud or is Hybrid, and
    Performance degradation otherwise.  Security breach is never among the
    first four. *)
Theorem make_fmea_ranking (a : analysis) :
  let modes := map Failure_Mode (make_fmea a) in
  let calm_cloud := (users a <= 2000)%Z /\ cloud_or_hybrid (hosting a) in
  ((2 <= List.length (external a))%nat /\
   firstn 3 modes
   = ["Integration failure"; "Master data quality issues";
      "Data migration error"]
   \/
   (List.length (external a) < 2)%nat /\
   firstn 3 modes
   = ["Master data quality issues"; "Integration failure";
      "Data migration error"]) /\
  (calm_cloud /\ nth_error modes 3 = Some "Availability / DR gap"
   \/
   ~ calm_cloud /\ nth_error modes 3 = Some "Performance degradation") /\
  ~ In "Security breach" (firstn 4 modes) /\
  In "Security breach" (skipn 4 modes).
Proof.
  intros modes calm_cloud. unfold modes, calm_cloud.
  rewrite make_fmea_modes.
  pose proof (many_integrations_spec a) as Hm.
  pose proof (cloud_or_hybrid_spec a) as Hc.
  pose proof (Z.ltb_lt 2000 (users a)) as Hu.
  destruct (many_integrations a), (2000 <? users a)%Z, (cloud a || hybrid a);
    settle Hm; settle Hc; settle Hu;
    (split; [|split; [|split]]);
    try (simpl; intuition discriminate);
    first [ left; split; [side_condition | reflexivity]
          | right; split; [side_condition | reflexivity] ].
Qed.

(** X8. For every profile, the six RPN values are pairwise different: the
    register is in strictly descending order and no tie is ever broken. *)
Theorem make_fmea_no_ties (a : analysis) :
  NoDup (map RPN (make_fmea a)) /\
  StronglySorted (fun x y => (y < x)%Z) (map RPN (make_fmea a)).
Proof.
  rewrite make_fmea_rpns.
  destruct (many_integrations a), (2000 <? users a)%Z, (cloud a || hybrid a);
    cbn [app]; split;
    repeat (constructor; try (simpl; intuition lia));
    repeat constructor; lia.
Qed.

(** X9. For every profile, each record of the register has a failure mode
    of the catalog, a severity from 7 to 10, an occurrence from 3 to 6, a
    detection from 4 to 6, an RPN from 108 to 270, and 3 or 4
    mitigations. *)
Theorem make_fmea_record_bounds (a : analysis) :
  Forall
    (fun r =>
       In (Failure_Mode r) FAILURE_MODES /\
       (7 <= Severity r <= 10)%Z /\
       (3 <= Occurrence r <= 6)%Z /\
       (4 <= Detection r <= 6)%Z /\
       (108 <= RPN r <= 270)%Z /\
       (3 <= List.length (Mitigations r) <= 4)%nat)
    (make_fmea a).
Proof.
  assert (Hcat : Forall
            (fun r =>
               In (Failure_Mode r) FAILURE_MODES /\
               (7 <= Severity r <= 10)%Z /\
               (3 <= Occurrence r <= 6)%Z /\
               (4 <= Detection r <= 6)%Z /\
               (108 <= RPN r <= 270)%Z /\
               (3 <= List.length (Mitigations r) <= 4)%nat)
            (fmea_catalog a)).
  { unfold fmea_catalog, add.
    destruct (many_integrations a), (2000 <? users a)%Z,
      (cloud a || hybrid a);
      cbn [app];
      repeat (apply Forall_cons; [repeat split; simpl; try lia; auto 10|]);
      apply Forall_nil. }
  rewrite Forall_forall in *. intros r Hr. apply Hcat.
  eapply Permutation_in; [apply Permutation_sym, sort_desc_perm | exact Hr].
Qed.

(* ------------------------------------------------------------------ *)
(** ** [mitigation_narrative]: blocks, fallback, size *)

Lemma narrative_block_Some (mode b : string) :
  narrative_block mode = Some b -> In mode FAILURE_MODES /\ In b MODE_BLOCKS.
Proof.
  unfold narrative_block, FAILURE_MODES, MODE_BLOCKS.
  repeat match goal with
         | |- context [String.eqb mode ?m] =>
             destruct (String.eqb_spec mode m) as [->|?]
         end;
    intros H; inversion H; subst; split; simpl; auto 10.
Qed.

Lemma narrative_block_None (mode : string) :
  narrative_block mode = None -> ~ In mode FAILURE_MODES.
Proof.
  unfold narrative_block, FAILURE_MODES.
  repeat match goal with
         | |- context [String.eqb mode ?m] =>
             destruct (String.eqb_spec mode m) as [->|?]
         end;
    intros H; try discriminate H.
  simpl. intuition congruence.
Qed.

(** X10. The narrative blocks cover exactly the catalog: a failure mode has
    a block if and only if it is one of the six of the catalog, the six
    blocks are pairwise different, and for every profile each record of the
    register has one. *)
Theorem narrative_block_covers_catalog :
  (forall mode, narrative_block mode <> None <-> In mode FAILURE_MODES) /\
  map narrative_block FAILURE_MODES = map Some MODE_BLOCKS /\
  NoDup MODE_BLOCKS /\
  (forall a : analysis,
      Forall (fun row => narrative_block (Failure_Mode row) <> None)
        (make_fmea a)).
Proof.
  assert (Hdom : forall mode,
             narrative_block mode <> None <-> In mode FAILURE_MODES).
  { intros mode. split.
    - destruct (narrative_block mode) as [b|] eqn:E; [|congruence].
      intros _. now apply narrative_block_Some in E.
    - intros Hin E. now apply narrative_block_None in E. }
  split; [exact Hdom|]. split; [reflexivity|].
  split; [unfold MODE_BLOCKS; nodup_by_cases|].
  intros a. apply Forall_forall. intros row Hrow. apply Hdom.
  apply (Permutation_in _ (Permutation_sym (sort_desc_perm RPN _))) in Hrow.
  apply (in_map Failure_Mode) in Hrow. exact Hrow.
Qed.

Section NarrativeLines.

Variable fmea_items : list fmea_item.
Variable a : analysis.

Lemma narrative_lines_blocks (b : string) :
  In b (narrative_lines fmea_items a) ->
  In b (MODE_BLOCKS ++ [BLOCK_GDPR; BLOCK_HIPAA]).
Proof.
  unfold narrative_lines. rewrite narrative_bullets_top4.
  intros Hin. apply in_app_or in Hin. apply in_or_app.
  destruct Hin as [Hin|Hin].
  - left. apply in_flat_map in Hin. destruct Hin as [row [_ Hb]].
    destruct (narrative_block (Failure_Mode row)) as [b'|] eqn:E;
      simpl in Hb; [|contradiction].
    destruct Hb as [<-|[]]. now apply narrative_block_Some in E.
  - right. apply narrative_extra_In in Hin. simpl. intuition.
Qed.

Lemma narrative_lines_nil :
  narrative_lines fmea_items a = [] <->
  (forall row, In row (firstn 4 fmea_items) ->
               ~ In (Failure_Mode row) FAILURE_MODES) /\
  ~ In "GDPR" (compliance a) /\ ~ In "HIPAA" (compliance a).
Proof.
  unfold narrative_lines. rewrite narrative_bullets_top4. split.
  - intros H. apply app_eq_nil in H. destruct H as [Hb He].
    split; [|split].
    + intros row Hrow Hin.
      destruct (narrative_block (Failure_Mode row)) as [b|] eqn:E.
      * assert (Hin' : In b (flat_map
                  (fun row => option_list (narrative_block (Failure_Mode row)))
                  (firstn 4 fmea_items)))
          by (apply in_flat_map; exists row; rewrite E; simpl; auto).
        rewrite Hb in Hin'. contradiction.
      * now apply narrative_block_None in E.
    + intros Hin.
      assert (Hin' : In BLOCK_GDPR (narrative_extra a))
        by (apply narrative_extra_In; auto).
      rewrite He in Hin'. contradiction.
    + intros Hin.
      assert (Hin' : In BLOCK_HIPAA (narrative_extra a))
        by (apply narrative_extra_In; auto).
      rewrite He in Hin'. contradiction.
  - intros [Hrows [Hg Hh]].
    assert (He : narrative_extra a = []).
    { destruct (narrative_extra a) as [|b l] eqn:E; [reflexivity|].
      assert (Hin : In b (narrative_extra a)) by (rewrite E; now left).
      apply narrative_extra_In in Hin. tauto. }
    rewrite He, app_nil_r.
    destruct (flat_map _ _) as [|b l] eqn:E; [reflexivity|].
    assert (Hin : In b (flat_map
                (fun row => option_list (narrative_block (Failure_Mode row)))
                (firstn 4 fmea_items))) by (rewrite E; now left).
    apply in_flat_map in Hin. destruct Hin as [row [Hrow Hb]].
    destruct (narrative_block (Failure_Mode row)) as [b'|] eqn:E';
      simpl in Hb; [|contradiction].
    apply narrative_block_Some in E'. exfalso. now apply (Hrows row).
Qed.

Lemma narrative_lines_length : (List.length (narrative_lines fmea_items a) <= 6)%nat.
Proof.
  unfold narrative_lines. rewrite length_app, narrative_bullets_top4.
  assert (Hb : forall l : list fmea_item,
             (List.length (flat_map
                (fun row => option_list (narrative_block (Failure_Mode row))) l)
              <= List.length l)%nat).
  { induction l as [|row l IH]; simpl; [lia|]. rewrite length_app.
    destruct (narrative_block (Failure_Mode row)); simpl; lia. }
  specialize (Hb (firstn 4 fmea_items)). rewrite length_firstn in Hb.
  assert (He : (List.length (narrative_extra a) <= 2)%nat)
    by (unfold narrative_extra;
        destruct (mem "GDPR" (compliance a)), (mem "HIPAA" (compliance a));
        simpl; lia).
  lia.
Qed.

End NarrativeLines.

(** X11. The default message is returned exactly when the narrative has no
    line: none of the first 4 records has a failure mode of the catalog, and
    neither GDPR nor HIPAA is in the compliance list (so for an empty risk
    list without these tags).  Otherwise the result is the joined lines. *)
Theorem mitigation_narrative_fallback
    (fmea_items : list fmea_item) (a : analysis) :
  (mitigation_narrative fmea_items a = NO_HIGH_RISKS <->
   narrative_lines fmea_items a = []) /\
  (narrative_lines fmea_items a = [] <->
   (forall row, In row (firstn 4 fmea_items) ->
                ~ In (Failure_Mode row) FAILURE_MODES) /\
   ~ In "GDPR" (compliance a) /\ ~ In "HIPAA" (compliance a)) /\
  (narrative_lines fmea_items a <> [] ->
   mitigation_narrative fmea_items a
   = join newline (narrative_lines fmea_items a)).
Proof.
  split; [|split; [apply narrative_lines_nil|]].
  - split.
    + intros Hres.
      destruct (narrative_lines fmea_items a) as [|b l] eqn:E; [reflexivity|].
      exfalso.
      assert (Hin : In b (narrative_lines fmea_items a))
        by (rewrite E; now left).
      pose proof (narrative_lines_blocks _ _ _ Hin) as Hblock.
      assert (Hne : b <> EmptyString)
        by (simpl in Hblock; intuition (subst; discriminate)).
      destruct (narrative_of_line fmea_items a b Hin Hne) as [Heq _].
      rewrite Heq in Hres. unfold narrative_text in Hres.
      fold (narrative_lines fmea_items a) in Hres. rewrite E in Hres.
      destruct (join_cons_starts newline b l) as [tail Ht].
      rewrite Ht in Hres. simpl in Hblock.
      intuition (subst; discriminate).
    + intros Hnil. unfold mitigation_narrative, narrative_text.
      fold (narrative_lines fmea_items a). now rewrite Hnil.
  - intros Hne.
    destruct (narrative_lines fmea_items a) as [|b l] eqn:E; [congruence|].
    assert (Hin : In b (narrative_lines fmea_items a))
      by (rewrite E; now left).
    pose proof (narrative_lines_blocks _ _ _ Hin) as Hblock.
    assert (Hb : b <> EmptyString)
      by (simpl in Hblock; intuition (subst; discriminate)).
    destruct (narrative_of_line fmea_items a b Hin Hb) as [Heq _].
    rewrite Heq. unfold narrative_text.
    fold (narrative_lines fmea_items a). now rewrite E.
Qed.

(** X12. Only the first 4 records of the risk list are read: the narrative
    of a list is that of its first 4 records, records after the fourth
    change nothing, and the narrative has at most 6 lines. *)
Theorem mitigation_narrative_first_four
    (fmea_items : list fmea_item) (a : analysis) :
  mitigation_narrative fmea_items a
  = mitigation_narrative (firstn 4 fmea_items) a /\
  (forall more,
      (4 <= List.length fmea_items)%nat ->
      mitigation_narrative (fmea_items ++ more) a
      = mitigation_narrative fmea_items a) /\
  (List.length (narrative_lines fmea_items a) <= 6)%nat.
Proof.
  assert (Hdep : forall l1 l2 : list fmea_item,
             firstn 4 l1 = firstn 4 l2 ->
             mitigation_narrative l1 a = mitigation_narrative l2 a).
  { intros l1 l2 H.
    unfold mitigation_narrative, narrative_text, narrative_bullets.
    now rewrite H. }
  split; [|split].
  - apply Hdep. now rewrite firstn_firstn.
  - intros more Hlen. apply Hdep. rewrite firstn_app.
    replace (4 - List.length fmea_items)%nat with 0%nat by lia.
    simpl. apply app_nil_r.
  - apply narrative_lines_length.
Qed.

(* ------------------------------------------------------------------ *)
(** ** [mitigation_narrative] after [make_fmea]: which blocks appear *)

Lemma make_fmea_bullets (a : analysis) :
  narrative_bullets (make_fmea a)
  = (if many_integrations a
     then [BLOCK_INTEGRATION; BLOCK_MASTER_DATA]
     else [BLOCK_MASTER_DATA; BLOCK_INTEGRATION])
    ++ [BLOCK_MIGRATION]
    ++ [if (2000 <? users a)%Z then BLOCK_PERFORMANCE
        else if cloud a || hybrid a then BLOCK_AVAILABILITY
             else BLOCK_PERFORMANCE].
Proof.
  unfold make_fmea, fmea_catalog.
  generalize (many_integrations a), (2000 <? users a)%Z, (cloud a || hybrid a).
  intros [] [] []; reflexivity.
Qed.

Lemma make_fmea_narrative_no_security (a : analysis) :
  contains BLOCK_SECURITY (mitigation_narrative (make_fmea a) a) = false.
Proof.
  unfold mitigation_narrative, narrative_text, narrative_extra.
  rewrite make_fmea_bullets.
  generalize (many_integrations a), (2000 <? users a)%Z, (cloud a || hybrid a),
    (mem "GDPR" (compliance a)), (mem "HIPAA" (compliance a)).
  intros [] [] [] [] []; vm_compute; reflexivity.
Qed.

(** X13. For every profile, the narrative built from its own register has
    exactly 4 risk blocks: Integration failure, Master data quality and Data
    migration error always, then the Availability/DR block when [users] is
    at most 2000 and the hosting names a cloud or is Hybrid, and the
    Performance block otherwise.  The Security breach block never occurs in
    the narrative. *)
Theorem narrative_blocks_of_register (a : analysis) :
  let bullets := narrative_bullets (make_fmea a) in
  let calm_cloud := (users a <= 2000)%Z /\ cloud_or_hybrid (hosting a) in
  List.length bullets = 4%nat /\
  In BLOCK_INTEGRATION bullets /\
  In BLOCK_MASTER_DATA bullets /\
  In BLOCK_MIGRATION bullets /\
  (In BLOCK_AVAILABILITY bullets <-> calm_cloud) /\
  (In BLOCK_PERFORMANCE bullets <-> ~ calm_cloud) /\
  ~ In BLOCK_SECURITY bullets /\
  ~ occurs_in BLOCK_SECURITY (mitigation_narrative (make_fmea a) a).
Proof.
  intros bullets calm_cloud. unfold bullets, calm_cloud.
  split; [|split; [|split; [|split; [|split; [|split; [|split]]]]]];
    try (apply contains_false, make_fmea_narrative_no_security);
    rewrite make_fmea_bullets;
    pose proof (cloud_or_hybrid_spec a) as Hc;
    pose proof (Z.ltb_lt 2000 (users a)) as Hu;
    destruct (many_integrations a), (2000 <? users a)%Z,
      (cloud a || hybrid a);
    settle Hc; settle Hu; cbn [app In List.length];
    try reflexivity; try tauto;
    try (split; [intros [E|[E|[E|[E|[]]]]]; try discriminate E;
                 side_condition
                | intros; tauto]);
    try (split; [intros [E|[E|[E|[E|[]]]]]; try discriminate E |
                 intros HH; exfalso; apply HH; side_condition]);
    try (intros [E|[E|[E|[E|[]]]]]; discriminate E).
Qed.

(* ------------------------------------------------------------------ *)
(** ** [build_dot]: the shape of the graph *)

Section GraphAnyProfile.

Variable a : analysis.

Lemma build_edges_sources :
  map fst (build_edges a)
  = ["Users"; "Fiori"; "S/4HANA"]
    ++ filter (fun m => negb (mem m ANCHORS)) (modules a)
    ++ external a.
Proof.
  rewrite build_edges_eq, !map_app, !map_map. simpl. now rewrite !map_id.
Qed.

Lemma build_edges_In (e : edge) :
  In e (build_edges a) <->
  e = ("Users", "Fiori") \/ e = ("Fiori", "S/4HANA") \/
  e = ("S/4HANA", hosting a) \/
  (snd e = "S/4HANA" /\
   (In (fst e) (filter (fun m => negb (mem m ANCHORS)) (modules a)) \/
    In (fst e) (external a))).
Proof.
  rewrite build_edges_eq, !in_app_iff, !in_map_iff. simpl. split.
  - intros [[H|[H|[H|[]]]]|[[m [<- Hm]]|[x [<- Hx]]]]; auto.
    + right. right. right. simpl. auto.
    + right. right. right. simpl. auto.
  - intros [->|[->|[->|[Hs [Hm|Hx]]]]]; auto.
    + right. left. exists (fst e). split; [|assumption].
      destruct e; simpl in *; now subst.
    + right. right. exists (fst e). split; [|assumption].
      destruct e; simpl in *; now subst.
Qed.

End GraphAnyProfile.

(** X14. For every profile, the graph is built around S/4HANA: every edge
    other than Users -> Fiori has S/4HANA as its source or target; there are
    3 template edges, one edge per module tag other than the anchors and one
    per external system; Users, Fiori, S/4HANA and the hosting value are
    always nodes. *)
Theorem build_dot_hub (a : analysis) :
  let edges := build_edges a in
  let nodes := sorted (graph_nodes edges) in
  Forall (fun e => e = ("Users", "Fiori") \/
                   fst e = "S/4HANA" \/ snd e = "S/4HANA") edges /\
  List.length edges
  = (3 + List.length (filter (fun m => negb (mem m ANCHORS)) (modules a))
     + List.length (external a))%nat /\
  In "Users" nodes /\ In "Fiori" nodes /\ In "S/4HANA" nodes /\
  In (hosting a) nodes.
Proof.
  intros edges nodes. unfold nodes, edges.
  split.
  { apply Forall_forall. intros e He. apply build_edges_In in He.
    destruct He as [->|[->|[->|[Hs _]]]]; simpl; auto. }
  split.
  { rewrite build_edges_eq, !length_app, !length_map. simpl. lia. }
  assert (Hnode : forall n e, In e (build_edges a) ->
                   n = fst e \/ n = snd e ->
                   In n (sorted (graph_nodes (build_edges a)))).
  { intros n e He Hn. rewrite sorted_In. apply graph_nodes_In. now exists e. }
  split; [apply (Hnode _ ("Users", "Fiori"));
          [apply build_edges_In|]; simpl; auto|].
  split; [apply (Hnode _ ("Users", "Fiori"));
          [apply build_edges_In|]; simpl; auto|].
  split; [apply (Hnode _ ("Fiori", "S/4HANA"));
          [apply build_edges_In|]; simpl; auto|].
  apply (Hnode _ ("S/4HANA", hosting a)); [apply build_edges_In|];
    simpl; auto.
Qed.

Section GraphOfExtract.

Variable text : option string.


Lemma tags_names_disjoint (x : string) :
  In x (map fst MODULE_KEYWORDS) -> In x (map fst EXT_SYSTEMS) -> False.
Proof. simpl. intuition congruence. Qed.

Lemma hosting_not_a_tag (h : string) :
  In h HOSTING_VALUES ->
  ~ In h (map fst MODULE_KEYWORDS) /\ ~ In h (map fst EXT_SYSTEMS) /\
  h <> "Users".
Proof. simpl. intuition congruence. Qed.

Lemma users_not_a_tag :
  ~ In "Users" (map fst MODULE_KEYWORDS) /\
  ~ In "Users" (map fst EXT_SYSTEMS).
Proof. simpl. intuition congruence. Qed.

Lemma anchors_not_external :
  ~ In "S/4HANA" (map fst EXT_SYSTEMS) /\ ~ In "Fiori" (map fst EXT_SYSTEMS).
Proof. simpl. intuition congruence. Qed.

Lemma modules_facts :
  NoDup (modules (extract text)) /\ incl (modules (extract text)) (map fst MODULE_KEYWORDS) /\
  In "S/4HANA" (modules (extract text)) /\ In "Fiori" (modules (extract text)).
Proof.
  assert (Hin : forall tag,
             In tag (modules (extract text)) <->
             tag = "S/4HANA" \/ tag = "Fiori" \/
             In tag (matched_modules (lower (text_or_empty text))))
    by (intros tag; unfold extract, profile_of; cbn [modules];
        now rewrite sorted_In, with_anchors_In).
  split; [apply sorted_NoDup, with_anchors_NoDup, matched_modules_NoDup|].
  split; [|split; apply Hin; auto].
  intros tag Htag. apply Hin in Htag.
  destruct Htag as [->|[->|Htag]]; [simpl; auto 20 | simpl; auto 20 |].
  apply matched_modules_In in Htag. destruct Htag as [kws [kw [Hreg _]]].
  apply in_map_iff. now exists (tag, kws).
Qed.

Lemma external_facts :
  NoDup (external (extract text)) /\ incl (external (extract text)) (map fst EXT_SYSTEMS).
Proof.
  pose proof (matched_externals_subsequence (lower (text_or_empty text)))
    as Hsub.
  split.
  - exact (subsequence_NoDup _ _ Hsub ext_names_NoDup).
  - intros x Hx. exact (subsequence_In _ _ _ Hsub Hx).
Qed.

Lemma non_anchors_In (x : string) :
  In x (non_anchor_modules (extract text)) <-> In x (modules (extract text)) /\ x <> "S/4HANA" /\ x <> "Fiori".
Proof.
  unfold non_anchor_modules. rewrite filter_In, negb_true_iff. split.
  - intros [Hin Hm]. split; [assumption|].
    split; intros ->; discriminate Hm.
  - intros [Hin [H1 H2]]. split; [assumption|].
    destruct (mem x ANCHORS) eqn:E; [|reflexivity].
    apply mem_spec in E. simpl in E. intuition congruence.
Qed.

Lemma non_anchors_length :
  (List.length (non_anchor_modules (extract text)) + 2 = List.length (modules (extract text)))%nat.
Proof.
  unfold non_anchor_modules.
  destruct modules_facts as [Hnd [_ [HS HF]]].
  pose proof (filter_length (fun m => negb (mem m ANCHORS)) (modules (extract text)))
    as Hlen.
  set (anchors_in := filter (fun x => negb (negb (mem x ANCHORS)))
                       (modules (extract text))) in *.
  assert (Hin : forall x, In x anchors_in <-> In x (modules (extract text)) /\ In x ANCHORS).
  { intros x. unfold anchors_in.
    now rewrite filter_In, negb_involutive, mem_spec. }
  assert (H2 : List.length anchors_in = 2%nat).
  { apply Nat.le_antisymm.
    - change 2%nat with (List.length ANCHORS).
      apply NoDup_incl_length; [now apply NoDup_filter|].
      intros x Hx. now apply Hin in Hx.
    - change 2%nat with (List.length ANCHORS).
      apply NoDup_incl_length; [unfold ANCHORS; nodup_by_cases|].
      intros x Hx. apply Hin. split; [|assumption].
      destruct Hx as [<-|[<-|[]]]; assumption. }
  lia.
Qed.

Lemma edge_sources_NoDup :
  NoDup (["Users"; "Fiori"; "S/4HANA"] ++ (non_anchor_modules (extract text)) ++ external (extract text)).
Proof.
  destruct modules_facts as [Hnd [Hincl _]].
  destruct external_facts as [Hend Heincl].
  destruct users_not_a_tag as [Hu1 Hu2].
  destruct anchors_not_external as [Hs Hf].
  assert (Hrest : NoDup ((non_anchor_modules (extract text)) ++ external (extract text))).
  { apply NoDup_app; [now apply NoDup_filter | assumption |].
    intros x Hx Hx'. apply non_anchors_In in Hx. destruct Hx as [Hx _].
    exact (tags_names_disjoint x (Hincl x Hx) (Heincl x Hx')). }
  assert (Hnot : forall x,
             In x ((non_anchor_modules (extract text)) ++ external (extract text)) ->
             x <> "Users" /\ x <> "Fiori" /\ x <> "S/4HANA").
  { intros x Hx. apply in_app_or in Hx. destruct Hx as [Hx|Hx].
    - apply non_anchors_In in Hx. destruct Hx as [Hx [H1 H2]].
      repeat split; try assumption. intros ->. apply Hu1. now apply Hincl.
    - repeat split; intros ->; [apply Hu2|apply Hf|apply Hs];
        now apply Heincl. }
  cbn [app]. constructor.
  { intros [H|[H|H]]; try discriminate H. apply Hnot in H. tauto. }
  constructor.
  { intros [H|H]; try discriminate H. apply Hnot in H. tauto. }
  constructor; [|exact Hrest].
  intros H. apply Hnot in H. tauto.
Qed.

Lemma graph_nodes_perm :
  Permutation (graph_nodes (build_edges (extract text)))
    ("Users" :: hosting (extract text) :: modules (extract text) ++ external (extract text)).
Proof.
  destruct modules_facts as [Hnd [Hincl [HS HF]]].
  destruct external_facts as [Hend Heincl].
  destruct users_not_a_tag as [Hu1 Hu2].
  destruct (hosting_not_a_tag _ (extract_hosting_values text))
    as [Hh1 [Hh2 Hh3]].
  apply NoDup_Permutation.
  - apply graph_nodes_NoDup.
  - constructor.
    { intros [H|H]; [now apply Hh3|]. apply in_app_or in H.
      destruct H as [H|H]; [apply Hu1; now apply Hincl
                           |apply Hu2; now apply Heincl]. }
    constructor.
    { intros H. apply in_app_or in H.
      destruct H as [H|H]; [apply Hh1; now apply Hincl
                           |apply Hh2; now apply Heincl]. }
    apply NoDup_app; try assumption.
    intros x Hx Hx'. exact (tags_names_disjoint x (Hincl x Hx) (Heincl x Hx')).
  - intros n. rewrite graph_nodes_In. split.
    + intros [e [He Hn]]. apply build_edges_In in He.
      destruct He as [->|[->|[->|[Hs Hsrc]]]]; simpl in Hn.
      * destruct Hn as [-> | ->]; [now left|].
        right. right. apply in_or_app. now left.
      * destruct Hn as [-> | ->]; right; right; apply in_or_app; now left.
      * destruct Hn as [-> | ->]; [|right; now left].
        right. right. apply in_or_app. now left.
      * rewrite Hs in Hn. destruct Hn as [-> | ->].
        -- right. right. apply in_or_app.
           destruct Hsrc as [Hm|Hx]; [left|now right].
           now apply non_anchors_In in Hm.
        -- right. right. apply in_or_app. now left.
    + intros [<-|[<-|Hn]].
      * exists ("Users", "Fiori"). split; [apply build_edges_In|]; simpl; auto.
      * exists ("S/4HANA", hosting (extract text)).
        split; [apply build_edges_In|]; simpl; auto.
      * apply in_app_or in Hn. destruct Hn as [Hn|Hn].
        -- destruct (string_dec n "S/4HANA") as [->|H1].
           { exists ("Fiori", "S/4HANA").
             split; [apply build_edges_In|]; simpl; auto. }
           destruct (string_dec n "Fiori") as [->|H2].
           { exists ("Users", "Fiori").
             split; [apply build_edges_In|]; simpl; auto. }
           exists (n, "S/4HANA"). split; [|simpl; auto].
           apply build_edges_In. right. right. right. simpl.
           split; [reflexivity|]. left. now apply non_anchors_In.
        -- exists (n, "S/4HANA"). split; [|simpl; auto].
           apply build_edges_In. right. right. right. simpl. auto.
Qed.

End GraphOfExtract.

(** X15. For every input text, the graph of the extracted profile has no
    duplicate edge and no edge from a node to itself, it has one edge per
    module and per external system plus one, and one node more than it has
    edges. *)
Theorem extract_graph_shape (text : option string) :
  let a := extract text in
  let edges := build_edges a in
  let nodes := sorted (graph_nodes edges) in
  NoDup edges /\
  Forall (fun e => fst e <> snd e) edges /\
  List.length edges
  = (1 + List.length (modules a) + List.length (external a))%nat /\
  List.length nodes = S (List.length edges).
Proof.
  intros a edges nodes. unfold nodes, edges, a.
  pose proof (edge_sources_NoDup text) as Hsrc.
  pose proof (non_anchors_length text) as Hna.
  unfold non_anchor_modules in Hsrc, Hna.
  pose proof (graph_nodes_perm text) as Hperm.
  destruct (external_facts text) as [_ Heincl].
  destruct anchors_not_external as [Hs _].
  destruct (hosting_not_a_tag _ (extract_hosting_values text)) as [Hh1 _].
  assert (Hlen : List.length (build_edges (extract text))
                 = (1 + List.length (modules (extract text))
                    + List.length (external (extract text)))%nat).
  { rewrite build_edges_eq, !length_app, !length_map. cbn [List.length].
    lia. }
  split.
  { apply (NoDup_map_inv fst). now rewrite build_edges_sources. }
  split.
  { apply Forall_forall. intros e He. apply build_edges_In in He.
    destruct He as [->|[->|[->|[Hsnd Hfst]]]]; cbn [fst snd];
      try discriminate.
    - intros E. apply Hh1. rewrite <- E. simpl. auto 20.
    - rewrite Hsnd. destruct Hfst as [Hm|Hx].
      + apply (non_anchors_In text) in Hm. tauto.
      + intros E. apply Hs. apply Heincl. now rewrite <- E. }
  split; [exact Hlen|].
  rewrite Hlen, <- (Permutation_length (sorted_perm _)).
  rewrite (Permutation_length Hperm). cbn [List.length].
  rewrite length_app. lia.
Qed.

(* ------------------------------------------------------------------ *)
(** ** [run_agents] *)

Lemma run_agents_eq (a : analysis) :
  run_agents a
  = [ mkFinding "Requirements Analyst"
        "Scope confirmed; clarify volumes, SLAs, and localization packs.";
      mkFinding "Process Mapper"
        "Map O2C (SD), P2P (MM/Ariba), RtR (FI), Mfg (PP/QM/PM) as applicable.";
      mkFinding "Module Recommender"
        ("Active modules: " ++ join ", " (modules a))%string;
      mkFinding "Integration Planner"
        ("Integrations: "
         ++ (if negb (is_empty (external a))
             then join ", " (external a)
             else "Standard SAP APIs only"))%string;
      mkFinding "Security Architect"
        (if negb (is_empty (compliance a))
         then ("RBAC, SoD, encryption in transit/at rest; audit trails for "
               ++ join ", " (compliance a))%string
         else "RBAC, SoD, encryption; enable audit trails.");
      mkFinding "Performance Engineer"
        ("Design for ~" ++ str_of_int (users a)
         ++ " users; cache OData; batch heavy jobs.")%string;
      mkFinding "Data Architect"
        "Use BW/4HANA for KPIs; MDG for golden records if multiple sources.";
      mkFinding "DR & Resilience"
        ("Cross-region DR; RPO " ++ LE_SIGN ++ " 15m, RTO " ++ LE_SIGN
         ++ " 2h; frequent backups.")%string;
      mkFinding "Testing Lead"
        "Automate regression for O2C/P2P/RtR + smoke performance tests.";
      mkFinding "Change Manager"
        "Fit-to-Standard; phased releases; training & hypercare." ].
Proof. reflexivity. Qed.

(** X16. For every profile, [run_agents] returns 10 findings, one per agent,
    in the declaration order of the agents, whose names are pairwise
    different; no finding is empty; the findings of the six agents other
    than the Module Recommender, the Integration Planner, the Security
    Architect and the Performance Engineer are the same for all profiles. *)
Theorem run_agents_shape (a : analysis) :
  List.length (run_agents a) = 10%nat /\
  map agent (run_agents a) = AGENT_NAMES /\
  NoDup AGENT_NAMES /\
  Forall (fun f => finding f <> EmptyString) (run_agents a) /\
  (forall (a' : analysis) (name : string),
      ~ In name PROFILE_AGENTS ->
      finding_of name (run_agents a) = finding_of name (run_agents a')).
Proof.
  split; [reflexivity|]. split; [reflexivity|].
  split; [unfold AGENT_NAMES; nodup_by_cases|].
  split.
  - rewrite run_agents_eq.
    repeat (apply Forall_cons; [cbn [finding]; try discriminate|]);
      try apply Forall_nil.
    destruct (negb (is_empty (compliance a))); discriminate.
  - intros a' name Hname. unfold finding_of. rewrite !run_agents_eq.
    cbn [find agent].
    repeat match goal with
           | |- context [String.eqb ?m name] =>
               destruct (String.eqb_spec m name) as [<-|?]
           end;
      try reflexivity; exfalso; apply Hname; simpl; auto.
Qed.

(** X17. The findings do not depend on the hosting value: two profiles with
    the same modules, external systems, compliance tags and users get the
    same findings. *)
Theorem run_agents_ignores_hosting (a1 a2 : analysis) :
  modules a1 = modules a2 -> external a1 = external a2 ->
  compliance a1 = compliance a2 -> users a1 = users a2 ->
  run_agents a1 = run_agents a2.
Proof.
  intros Hm He Hc Hu. rewrite !run_agents_eq. now rewrite Hm, He, Hc, Hu.
Qed.

Lemma run_agents_ignores_hosting_witness :
  run_agents (mkAnalysis ["Fiori"; "S/4HANA"] ["POS"] "On-Prem" ["GDPR"] 250)
  = run_agents (mkAnalysis ["Fiori"; "S/4HANA"] ["POS"] "Hybrid" ["GDPR"] 250).
Proof.
  apply run_agents_ignores_hosting; reflexivity.
Defined.

Lemma occurs_in_suffix (pre s x : string) :
  occurs_in x s -> occurs_in x (pre ++ s)%string.
Proof.
  intros [p [q ->]]. exists (pre ++ p)%string, q. now rewrite append_assoc.
Qed.

(** X18. For every profile, the Module Recommender names every module tag,
    the Integration Planner names every external system and the Security
    Architect names every compliance tag of the profile; with no external
    system the Integration Planner answers "Standard SAP APIs only", and
    with no compliance tag the whole text of the Security Architect is the
    generic reminder. *)
Theorem run_agents_names_profile (a : analysis) :
  (exists f,
      finding_of "Module Recommender" (run_agents a) = Some f /\
      forall tag, In tag (modules a) -> occurs_in tag f) /\
  (exists f,
      finding_of "Integration Planner" (run_agents a) = Some f /\
      (forall name, In name (external a) -> occurs_in name f) /\
      (external a = [] -> f = "Integrations: Standard SAP APIs only")) /\
  (exists f,
      finding_of "Security Architect" (run_agents a) = Some f /\
      (forall tag, In tag (compliance a) -> occurs_in tag f) /\
      (compliance a = [] ->
       f = "RBAC, SoD, encryption; enable audit trails.")).
Proof.
  unfold finding_of. rewrite run_agents_eq. cbn [find agent String.eqb].
  split; [|split].
  - eexists. split; [reflexivity|]. intros tag Htag.
    apply occurs_in_suffix. now apply occurs_in_join.
  - eexists. split; [reflexivity|]. split.
    + intros name Hname. apply occurs_in_suffix.
      destruct (external a) as [|x l]; [contradiction|]. cbn [is_empty negb].
      now apply occurs_in_join.
    + intros ->. reflexivity.
  - eexists. split; [reflexivity|]. split.
    + intros tag Htag.
      destruct (compliance a) as [|x l]; [contradiction|]. cbn [is_empty negb].
      apply occurs_in_suffix. now apply occurs_in_join.
    + intros ->. reflexivity.
Qed.

(* ------------------------------------------------------------------ *)
(** ** [str] and [int] *)

Section Decimal.

Local Open Scope Z_scope.

Lemma int_from_string_of_uint (d : Decimal.uint) (acc : positive) :
  int_from (Z.pos acc) (DecimalString.NilEmpty.string_of_uint d)
  = Z.pos (Pos.of_uint_acc d acc).
Proof.
  revert acc; induction d; intros acc; cbn [DecimalString.NilEmpty.string_of_uint
    int_from Pos.of_uint_acc]; [reflexivity|..];
    rewrite <- IHd; f_equal;
    match goal with
    | |- context [digit_value ?c] =>
        let v := eval vm_compute in (digit_value c) in
        change (digit_value c) with v
    end; lia.
Qed.

Lemma int_string_of_uint (d : Decimal.uint) :
  int (DecimalString.NilEmpty.string_of_uint d) = Z.of_N (Pos.of_uint d).
Proof.
  unfold int.
  induction d; cbn [DecimalString.NilEmpty.string_of_uint int_from Pos.of_uint];
    [reflexivity | exact IHd |..];
    apply (int_from_string_of_uint d).
Qed.

Lemma all_digits_string_of_uint (d : Decimal.uint) :
  all_digits (DecimalString.NilEmpty.string_of_uint d) = true.
Proof. induction d; simpl; auto. Qed.

Lemma str_of_int_pos (p : positive) :
  str_of_int (Z.pos p) = DecimalString.NilEmpty.string_of_uint (Pos.to_uint p).
Proof.
  unfold str_of_int. cbn [Z.to_int DecimalString.NilZero.string_of_int].
  unfold DecimalString.NilZero.string_of_uint.
  pose proof (DecimalPos.Unsigned.to_uint_nonnil p) as Hnil.
  now destruct (Pos.to_uint p).
Qed.

Lemma int_str_of_int (n : Z) : 0 <= n -> int (str_of_int n) = n.
Proof.
  destruct n as [|p|p]; intros Hn; [reflexivity | | lia].
  now rewrite str_of_int_pos, int_string_of_uint, DecimalPos.Unsigned.of_to.
Qed.

Lemma all_digits_str_of_int (n : Z) :
  0 <= n -> all_digits (str_of_int n) = true.
Proof.
  destruct n as [|p|p]; intros Hn; [reflexivity | | lia].
  rewrite str_of_int_pos. apply all_digits_string_of_uint.
Qed.

End Decimal.

(** X19. [int] reads back what [str] prints for a non-negative number, and
    what is printed is made of digits only.  For every input text, the
    Performance Engineer prints the users of the profile in this way, so the
    number in its finding reads back as [users]. *)
Theorem performance_finding_roundtrip :
  (forall n : Z,
      (0 <= n)%Z ->
      int (str_of_int n) = n /\ all_digits (str_of_int n) = true) /\
  (forall text : option string,
      let a := extract text in
      finding_of "Performance Engineer" (run_agents a)
      = Some ("Design for ~" ++ str_of_int (users a)
              ++ " users; cache OData; batch heavy jobs.")%string /\
      int (str_of_int (users a)) = users a).
Proof.
  split.
  - intros n Hn. split; [now apply int_str_of_int
                        | now apply all_digits_str_of_int].
  - intros text a. split; [reflexivity|].
    apply int_str_of_int. unfold a, extract, profile_of. cbn [users].
    apply users_hint_nonneg.
Qed.

(* ------------------------------------------------------------------ *)
(** ** [make_fmea]: what the register depends on *)

Lemma bool_eq_of_iff (b1 b2 : bool) :
  (b1 = true <-> b2 = true) -> b1 = b2.
Proof. destruct b1, b2; intuition congruence. Qed.

(** X20. The register depends on the profile only through three facts:
    whether it has at least 2 external systems, whether [users] exceeds
    2000, and whether the hosting names a cloud or is Hybrid.  Two profiles
    that agree on them get the same register, whatever their modules and
    compliance tags. *)
Theorem make_fmea_three_facts (a1 a2 : analysis) :
  ((2 <= List.length (external a1))%nat <->
   (2 <= List.length (external a2))%nat) ->
  ((2000 < users a1)%Z <-> (2000 < users a2)%Z) ->
  (cloud_or_hybrid (hosting a1) <-> cloud_or_hybrid (hosting a2)) ->
  make_fmea a1 = make_fmea a2.
Proof.
  intros He Hu Hh.
  assert (E1 : many_integrations a1 = many_integrations a2)
    by (apply bool_eq_of_iff; now rewrite !many_integrations_spec).
  assert (E2 : (2000 <? users a1)%Z = (2000 <? users a2)%Z)
    by (apply bool_eq_of_iff; now rewrite !Z.ltb_lt).
  assert (E3 : cloud a1 || hybrid a1 = cloud a2 || hybrid a2)
    by (apply bool_eq_of_iff; now rewrite !cloud_or_hybrid_spec).
  unfold make_fmea, fmea_catalog. now rewrite E1, E2, E3.
Qed.

Lemma make_fmea_three_facts_witness :
  make_fmea (mkAnalysis ["FI"; "Fiori"; "S/4HANA"] ["POS"; "EHR"]
               "AWS Cloud" ["GDPR"] 3000)
  = make_fmea (mkAnalysis ["Fiori"; "S/4HANA"]
                 ["Salesforce CRM"; "POS"; "EHR"] "Hybrid" [] 99999).
Proof.
  apply make_fmea_three_facts; cbn [external users hosting List.length].
  - split; intros _; lia.
  - split; intros _; lia.
  - split; intros _; [now right | left; by_running].
Defined.

(* ------------------------------------------------------------------ *)
(** ** [extract]: more text, more tags *)

Lemma occurs_in_context (kw pre s post : string) :
  occurs_in kw s -> occurs_in kw (pre ++ s ++ post)%string.
Proof.
  intros [p [q ->]]. exists (pre ++ p)%string, (q ++ post)%string.
  now rewrite !append_assoc.
Qed.

(** X21. Text added in front of or behind a text never removes a tag: the
    modules, the external systems and the compliance tags found in a text
    are found in every text that contains it. *)
Theorem extract_tags_monotone (pre s post : string) :
  let small := extract (Some s) in
  let big := extract (Some (pre ++ s ++ post)%string) in
  incl (modules small) (modules big) /\
  incl (external small) (external big) /\
  incl (compliance small) (compliance big).
Proof.
  intros small big. unfold small, big, extract, profile_of, text_or_empty.
  cbn [modules external compliance].
  rewrite !lower_append.
  set (t := lower s). set (p := lower pre). set (q := lower post).
  split; [|split]; intros x Hx.
  - rewrite sorted_In, with_anchors_In, matched_modules_In in *.
    destruct Hx as [Hx|[Hx|[kws [kw [H1 [H2 H3]]]]]]; auto.
    right. right. exists kws, kw. repeat split; try assumption.
    now apply occurs_in_context.
  - apply matched_externals_In in Hx. apply matched_externals_In.
    destruct Hx as [kws [kw [H1 [H2 H3]]]]. exists kws, kw.
    repeat split; try assumption. now apply occurs_in_context.
  - rewrite matched_compliance_eq in *. apply in_map_iff in Hx.
    apply in_map_iff. destruct Hx as [w [Hw Hin]]. exists w.
    split; [assumption|]. apply filter_In in Hin. apply filter_In.
    destruct Hin as [Hin Hc]. split; [assumption|].
    apply contains_spec. apply contains_spec in Hc.
    now apply occurs_in_context.
Qed.
